(** * In-chat message search (history_view_compose_search.cpp)

    A shallow embedding of the search core of
    [HistoryView::ComposeSearch]: the query input ([TopBar]), the pager
    ([BottomBar]), the dual-source result merger ([ApiSearch]) and the
    orchestrator ([ComposeSearch::Inner]).

    Every [rpl::event_stream::fire] is synchronous in the source.  The
    handlers of [ApiSearch] always fire their signal as their last action,
    so the embedding records the fired signal in an output list and the
    orchestrator dispatches it right after the handler returns, which is
    the same order of effects. *)

From Stdlib Require Import String List ZArith Bool Lia.
Import ListNotations.
Open Scope string_scope.
Open Scope list_scope.
Open Scope Z_scope.

(** ** A state-and-output monad

    [RW S O A] threads a state [S] and accumulates the outputs [O]
    (signals fired, remote calls issued) in the order the code produces
    them. *)
Module RW.
Section RW.
Context {S O : Type}.

Definition t (A : Type) : Type := S -> A * S * list O.

Definition ret {A} (a : A) : t A := fun s => (a, s, []).

Definition bind {A B} (m : t A) (k : A -> t B) : t B :=
  fun s =>
    let '(a, s1, o1) := m s in
    let '(b, s2, o2) := k a s1 in
    (b, s2, o1 ++ o2).

Definition get : t S := fun s => (s, s, []).
Definition put (s' : S) : t unit := fun _ => (tt, s', []).
Definition modify (f : S -> S) : t unit := fun s => (tt, f s, []).
Definition tell (o : O) : t unit := fun s => (tt, s, [o]).

(** Run [f] on every element, in order. *)
Fixpoint iter {A} (f : A -> t unit) (l : list A) : t unit :=
  match l with
  | [] => ret tt
  | x :: l' => bind (f x) (fun _ => iter f l')
  end.

(** Run a computation, keeping final state and outputs. *)
Definition exec {A} (m : t A) (s : S) : S * list O :=
  let '(_, s', o) := m s in (s', o).

End RW.
End RW.

Notation "x <- m ;; k" := (RW.bind m (fun x => k))
  (at level 61, m at next level, right associativity).
Notation "m ;;; k" := (RW.bind m (fun _ => k))
  (at level 61, right associativity).

(** ** Data model *)

(** [FullMsgId]: the peer a message lives in and its id. *)
Record FullMsgId := { peer : Z; msg : Z }.

Definition FullMsgId_eqb (a b : FullMsgId) : bool :=
  (peer a =? peer b) && (msg a =? msg b).

(** [PeerData *from]: [None] is [nullptr], otherwise the peer id. *)
Definition PeerRef := option Z.

Definition PeerRef_eqb (a b : PeerRef) : bool :=
  match a, b with
  | None, None => true
  | Some x, Some y => x =? y
  | _, _ => false
  end.

(** [struct SearchRequest { QString query; PeerData *from = nullptr; }] *)
Record SearchRequest := { query : string; from : PeerRef }.

(** [Api::FoundMessages]: one page of results, or the accumulator. *)
Record FoundMessages := {
  total : Z;
  messages : list FullMsgId;
  nextToken : string
}.

(** Modelled from the spec: the default value [Api::FoundMessages{}]
    (declared in api_messages_search.h, which is not among the sources):
    "total: integer (>=0, or unknown/-1 sentinel)", no messages, and an
    empty continuation token ([QString()]). *)
Definition emptyFound : FoundMessages :=
  {| total := -1; messages := []; nextToken := "" |}.

Definition set_messages (f : FoundMessages) (l : list FullMsgId)
  : FoundMessages :=
  {| total := total f; messages := l; nextToken := nextToken f |}.

Definition set_total (f : FoundMessages) (n : Z) : FoundMessages :=
  {| total := n; messages := messages f; nextToken := nextToken f |}.

(** Calls issued to the remote search adapters ([Api::MessagesSearch]). *)
Inductive Call :=
| PrimarySearchMessages (q : string) (f : PeerRef)
| MigratedSearchMessages (q : string) (f : PeerRef)
| PrimarySearchMore
| MigratedSearchMore.

(** ** ApiSearch: the dual-source merger *)
Module ApiSearch.

(** The fields of [class ApiSearch]; [hasMigrated] stands for
    [_migratedSearch.has_value()], fixed at construction. *)
Record State := {
  hasMigrated : bool;
  migratedFirstFound : FoundMessages;
  concatedFound : FoundMessages;
  waitingForTotal : bool;
  isFull : bool
}.

Inductive Signal := NewFounds | NextFounds.

Inductive Out :=
| Fire (sg : Signal)
| Request (c : Call).

Definition M := @RW.t State Out.

Definition mk (m : bool) (mf cf : FoundMessages) (w f : bool) : State :=
  {| hasMigrated := m; migratedFirstFound := mf; concatedFound := cf;
     waitingForTotal := w; isFull := f |}.

(** Freshly constructed [ApiSearch]. *)
Definition init (migrated : bool) : State :=
  mk migrated emptyFound emptyFound false false.

Definition set_concated (s : State) (c : FoundMessages) : State :=
  mk (hasMigrated s) (migratedFirstFound s) c (waitingForTotal s) (isFull s).
Definition set_migratedFirst (s : State) (m : FoundMessages) : State :=
  mk (hasMigrated s) m (concatedFound s) (waitingForTotal s) (isFull s).
Definition set_waiting (s : State) (b : bool) : State :=
  mk (hasMigrated s) (migratedFirstFound s) (concatedFound s) b (isFull s).
Definition set_isFull (s : State) (b : bool) : State :=
  mk (hasMigrated s) (migratedFirstFound s) (concatedFound s)
    (waitingForTotal s) b.

Definition fire (sg : Signal) : M unit := RW.tell (Fire sg).
Definition request (c : Call) : M unit := RW.tell (Request c).

(** [ApiSearch::addFound]: push every message of [data] to the back of
    [_concatedFound.messages]. *)
Definition addFound (data : FoundMessages) : M unit :=
  RW.modify (fun s =>
    set_concated s (set_messages (concatedFound s)
      (messages (concatedFound s) ++ messages data))).

(** The [checkWaitingForTotal] lambda. *)
Definition checkWaitingForTotal : M unit :=
  s <- RW.get ;;
  if waitingForTotal s then
    if (0 <=? total (concatedFound s))
       && (0 <=? total (migratedFirstFound s)) then
      RW.put (set_concated (set_waiting s false)
        (set_total (concatedFound s)
          (total (concatedFound s) + total (migratedFirstFound s)))) ;;;
      fire NewFounds
    else RW.ret tt
  else fire NewFounds.

(** The [checkFull] lambda. *)
Definition checkFull (data : FoundMessages) : M unit :=
  s <- RW.get ;;
  if total data =? Z.of_nat (length (messages (concatedFound s))) then
    RW.put (set_isFull s true) ;;;
    addFound (migratedFirstFound s)
  else RW.ret tt.

(** Handler of [_apiSearch.messagesFounds()]. *)
Definition onPrimaryFound (data : FoundMessages) : M unit :=
  s <- RW.get ;;
  if String.eqb (nextToken data) (nextToken (concatedFound s)) then
    addFound data ;;;
    checkFull data ;;;
    fire NextFounds
  else
    RW.put (set_concated s data) ;;;
    checkFull data ;;;
    checkWaitingForTotal.

(** Handler of [_migratedSearch->messagesFounds()]; it is only subscribed
    when a migrated source exists, so without one nothing happens. *)
Definition onMigratedFound (data : FoundMessages) : M unit :=
  s <- RW.get ;;
  if hasMigrated s then
    (if isFull s then addFound data else RW.ret tt) ;;;
    s1 <- RW.get ;;
    if String.eqb (nextToken data) (nextToken (migratedFirstFound s1)) then
      fire NextFounds
    else
      RW.put (set_migratedFirst s1 data) ;;;
      checkWaitingForTotal
  else RW.ret tt.

(** [ApiSearch::clear]. *)
Definition clear : M unit :=
  RW.modify (fun s => set_migratedFirst (set_concated s emptyFound) emptyFound).

(** [ApiSearch::search]. *)
Definition search (r : SearchRequest) : M unit :=
  s <- RW.get ;;
  (if hasMigrated s then
     RW.put (set_waiting s true) ;;;
     request (MigratedSearchMessages (query r) (from r))
   else RW.ret tt) ;;;
  request (PrimarySearchMessages (query r) (from r)).

(** [ApiSearch::searchMore]. *)
Definition searchMore : M unit :=
  s <- RW.get ;;
  if hasMigrated s && isFull s then request MigratedSearchMore
  else request PrimarySearchMore.

(** A page delivered by one of the two adapters. *)
Inductive Arrival :=
| Primary (d : FoundMessages)
| Migrated (d : FoundMessages).

Definition arrive (a : Arrival) : M unit :=
  match a with
  | Primary d => onPrimaryFound d
  | Migrated d => onMigratedFound d
  end.

Definition arrivalPage (a : Arrival) : FoundMessages :=
  match a with Primary d => d | Migrated d => d end.

Definition arriveAll (l : list Arrival) : M unit := RW.iter arrive l.

(** What the orchestrator does to the merger: a page arrives, a new search
    is issued ([clear(); search(r)]), or more results are requested. *)
Inductive Op :=
| Arrive (a : Arrival)
| NewSearch (r : SearchRequest)
| More.

Definition op (o : Op) : M unit :=
  match o with
  | Arrive a => arrive a
  | NewSearch r => clear ;;; search r
  | More => searchMore
  end.

Definition runOps (l : list Op) : M unit := RW.iter op l.

End ApiSearch.

(** ** BottomBar: the pager *)
Module BottomBar.

(** [int _total = -1; rpl::variable<int> _current = 0;] *)
Record State := { total : Z; current : Z }.

Definition init : State := {| total := -1; current := 0 |}.

(** The outputs are the values of [showItemRequests()], i.e. every change
    of [_current] mapped by [_1 - 1]. *)
Definition M := @RW.t State Z.

(** Enabled state of the arrows, computed in the [_current.value()]
    subscriber. *)
Definition nextDisabled (s : State) : bool :=
  (current s <=? 0) || (total s <=? current s).
Definition prevDisabled (s : State) : bool := current s <=? 1.

(** [setCurrent]: [_current.force_assign(current)] fires a change even
    when the value is the same. *)
Definition setCurrent (c : Z) : M unit :=
  s <- RW.get ;;
  RW.put {| total := total s; current := c |} ;;;
  RW.tell (c - 1).

(** [setTotal]. *)
Definition setTotal (n : Z) : M unit :=
  s <- RW.get ;;
  RW.put {| total := n; current := current s |} ;;;
  setCurrent 1.

(** A click on an arrow, [_current = _current.current() + way].  A
    disabled arrow is [WA_TransparentForMouseEvents], so a click on it
    never reaches [clicks()]: it does nothing. *)
Definition step (way : Z) : M unit :=
  s <- RW.get ;;
  RW.put {| total := total s; current := current s + way |} ;;;
  RW.tell (current s + way - 1).

Definition clickNext : M unit :=
  s <- RW.get ;; if nextDisabled s then RW.ret tt else step 1.

Definition clickPrev : M unit :=
  s <- RW.get ;; if prevDisabled s then RW.ret tt else step (-1).

Inductive Op := Next | Prev.

Definition op (o : Op) : M unit :=
  match o with Next => clickNext | Prev => clickPrev end.

End BottomBar.

(** ** TopBar: the query input *)
Module TopBar.

(** [selectQuery] is [_select->getQuery()], [curFrom] is [_from],
    [timerArmed] says whether [_searchTimer] is pending. *)
Record State := {
  selectQuery : string;
  curFrom : PeerRef;
  typedRequests : list SearchRequest;
  timerArmed : bool
}.

Definition init : State :=
  {| selectQuery := ""; curFrom := None; typedRequests := [];
     timerArmed := false |}.

Inductive Out :=
| Emit (r : SearchRequest)   (** [_searchRequests.fire_copy] *)
| QueryChanges.              (** [_queryChanges.fire] *)

Definition M := @RW.t State Out.

Definition mk (q : string) (f : PeerRef) (t : list SearchRequest) (a : bool)
  : State :=
  {| selectQuery := q; curFrom := f; typedRequests := t; timerArmed := a |}.

(** [TopBar::requestSearch(bool cache = true)]. *)
Definition requestSearch (cache : bool) : M unit :=
  s <- RW.get ;;
  let r := {| query := selectQuery s; from := curFrom s |} in
  (if cache then
     RW.put (mk (selectQuery s) (curFrom s) (typedRequests s ++ [r])
               (timerArmed s))
   else RW.ret tt) ;;;
  RW.tell (Emit r).

Definition cached (s : State) : bool :=
  existsb (fun t => String.eqb (query t) (selectQuery s)
                    && PeerRef_eqb (from t) (curFrom s))
    (typedRequests s).

(** [TopBar::requestSearchDelayed]: a cached pair is re-emitted at once;
    otherwise [_searchTimer.callOnce] (re)starts the timer. *)
Definition requestSearchDelayed : M unit :=
  s <- RW.get ;;
  if cached s then requestSearch false
  else RW.put (mk (selectQuery s) (curFrom s) (typedRequests s) true).

Inductive Event :=
| QueryChanged (q : string)  (** query-changed callback of [_select] *)
| Submitted                  (** submitted callback of [_select] *)
| TimerFired                 (** [_searchTimer] expires *)
| SetFrom (p : PeerRef)      (** [TopBar::setFrom] *)
| ItemRemoved.               (** item-removed callback of [_select] *)

Definition step (e : Event) : M unit :=
  match e with
  | QueryChanged q =>
      RW.modify (fun s => mk q (curFrom s) (typedRequests s) (timerArmed s)) ;;;
      requestSearchDelayed ;;;
      RW.tell QueryChanges
  | Submitted => requestSearch true
  | TimerFired =>
      s <- RW.get ;;
      if timerArmed s then
        RW.put (mk (selectQuery s) (curFrom s) (typedRequests s) false) ;;;
        requestSearch true
      else RW.ret tt
  | SetFrom p =>
      (* clearItems() only touches the widget; the guard then assigns
         [_from] and calls requestSearchDelayed(). *)
      RW.modify (fun s => mk (selectQuery s) p (typedRequests s) (timerArmed s)) ;;;
      requestSearchDelayed
  | ItemRemoved =>
      RW.modify (fun s =>
        mk (selectQuery s) None (typedRequests s) (timerArmed s)) ;;;
      requestSearchDelayed
  end.

(** The pair a request would carry now. *)
Definition pairOf (s : State) : SearchRequest :=
  {| query := selectQuery s; from := curFrom s |}.

End TopBar.

(** ** ComposeSearch::Inner: the orchestrator *)
Module Inner.

(** [_pendingJump.data]: [{ QString token; Index index = -1; }]. *)
Record PendingJump := { token : string; index : Z }.

Definition noJump : PendingJump := {| token := ""; index := -1 |}.

Record State := {
  api : ApiSearch.State;
  pendingJump : PendingJump;
  bar : BottomBar.State;
  listItems : list FullMsgId   (** rows of the list controller *)
}.

Definition init (migrated : bool) : State :=
  {| api := ApiSearch.init migrated; pendingJump := noJump;
     bar := BottomBar.init; listItems := [] |}.

Inductive Out :=
| ECall (c : Call)             (** a call to a remote search adapter *)
| ERefire (i : Z)              (** [_pendingJump.jumps.fire_copy(i)] *)
| EGoTo (id : FullMsgId)       (** [goToMessage]: jump to the message *)
| EHideList.                   (** [hideList()] *)

Definition M := @RW.t State Out.

Definition mk a p b l : State :=
  {| api := a; pendingJump := p; bar := b; listItems := l |}.

(** Run an [ApiSearch] operation on the [_apiSearch] member; its outputs
    are returned for dispatch. *)
Definition liftApi (m : ApiSearch.M unit) : M (list ApiSearch.Out) :=
  fun s =>
    let '(_, a', o) := m (api s) in
    (o, mk a' (pendingJump s) (bar s) (listItems s), []).

(** Run a [BottomBar] operation on [_bottomBar]; returns the indices it
    emitted on [showItemRequests()]. *)
Definition liftBar (m : BottomBar.M unit) : M (list Z) :=
  fun s =>
    let '(_, b', o) := m (bar s) in
    (o, mk (api s) (pendingJump s) b' (listItems s), []).

Definition setPending (p : PendingJump) : M unit :=
  RW.modify (fun s => mk (api s) p (bar s) (listItems s)).

(** Forward the remote calls issued by an operation that fires no signal
    ([clear], [search], [searchMore]). *)
Definition calls (outs : list ApiSearch.Out) : M unit :=
  RW.iter (fun o => match o with
                    | ApiSearch.Request c => RW.tell (ECall c)
                    | ApiSearch.Fire _ => RW.ret tt
                    end) outs.

Definition runCalls (m : ApiSearch.M unit) : M unit :=
  outs <- liftApi m ;; calls outs.

(** [ListController::addItems(ids, clear)]; every id is taken to resolve
    to a message of [_history->owner()]. *)
Definition addItems (ids : list FullMsgId) (clear : bool) : M unit :=
  RW.modify (fun s =>
    mk (api s) (pendingJump s) (bar s)
       (if clear then ids else listItems s ++ ids)).

Definition loadedSize (s : State) : Z :=
  Z.of_nat (length (messages (ApiSearch.concatedFound (api s)))).

(** The navigation-intent handler, subscribed to
    [rpl::merge(_pendingJump.jumps.events() | filter(_1 >= 0),
    _bottomBar->showItemRequests())]. *)
Definition showItem (i : Z) : M unit :=
  s <- RW.get ;;
  let apiData := ApiSearch.concatedFound (api s) in
  let size := Z.of_nat (length (messages apiData)) in
  (if (size - 1 <=? i) && negb (size =? total apiData)
   then runCalls ApiSearch.searchMore else RW.ret tt) ;;;
  if (size <=? i) || (i <? 0) then
    setPending {| token := nextToken apiData; index := i |}
  else
    setPending noJump ;;;
    match nth_error (messages apiData) (Z.to_nat i) with
    | Some id => RW.tell (EGoTo id)
    | None => RW.ret tt
    end ;;;
    RW.tell EHideList.

Definition showItems (l : list Z) : M unit := RW.iter showItem l.

(** The [_apiSearch.newFounds()] handler: [setTotal] re-selects position 1,
    whose change reaches [showItem 0] before the list is refilled. *)
Definition onNewFounds : M unit :=
  s <- RW.get ;;
  let apiData := ApiSearch.concatedFound (api s) in
  idx <- liftBar (BottomBar.setTotal (total apiData)) ;;
  showItems idx ;;;
  addItems (messages apiData) true.

(** The [_apiSearch.nextFounds()] handler. *)
Definition onNextFounds : M unit :=
  s <- RW.get ;;
  let p := pendingJump s in
  (if String.eqb (token p) (nextToken (ApiSearch.concatedFound (api s))) then
     RW.tell (ERefire (index p)) ;;;
     (if 0 <=? index p then showItem (index p) else RW.ret tt)
   else RW.ret tt) ;;;
  s1 <- RW.get ;;
  addItems (messages (ApiSearch.concatedFound (api s1))) false.

Definition dispatch (outs : list ApiSearch.Out) : M unit :=
  RW.iter (fun o => match o with
                    | ApiSearch.Request c => RW.tell (ECall c)
                    | ApiSearch.Fire ApiSearch.NewFounds => onNewFounds
                    | ApiSearch.Fire ApiSearch.NextFounds => onNextFounds
                    end) outs.

(** The [_topBar->searchRequests()] handler. *)
Definition onSearchRequest (r : SearchRequest) : M unit :=
  if String.eqb (query r) "" && PeerRef_eqb (from r) None then
    RW.ret tt
  else
    runCalls (ApiSearch.clear ;;; ApiSearch.search r).

(** The [_list.controller->showItemRequests()] handler. *)
Fixpoint findIndex (id : FullMsgId) (l : list FullMsgId) : option nat :=
  match l with
  | [] => None
  | x :: l' => if FullMsgId_eqb x id then Some O
               else option_map S (findIndex id l')
  end.

Definition onRowClicked (id : FullMsgId) : M unit :=
  s <- RW.get ;;
  match findIndex id (messages (ApiSearch.concatedFound (api s))) with
  | Some k => idx <- liftBar (BottomBar.setCurrent (Z.of_nat k + 1)) ;;
              showItems idx
  | None => RW.ret tt
  end.

(** The [_list.controller->searchMoreRequests()] handler. *)
Definition onListSearchMore : M unit :=
  s <- RW.get ;;
  let apiData := ApiSearch.concatedFound (api s) in
  if negb (Z.of_nat (length (messages apiData)) =? total apiData)
  then runCalls ApiSearch.searchMore else RW.ret tt.

Inductive Event :=
| SearchRequested (r : SearchRequest)
| PrimaryFound (d : FoundMessages)
| MigratedFound (d : FoundMessages)
| BarClicked (o : BottomBar.Op)
| RowClicked (id : FullMsgId)
| ListSearchMore.

Definition step (e : Event) : M unit :=
  match e with
  | SearchRequested r => onSearchRequest r
  | PrimaryFound d => outs <- liftApi (ApiSearch.onPrimaryFound d) ;; dispatch outs
  | MigratedFound d => outs <- liftApi (ApiSearch.onMigratedFound d) ;; dispatch outs
  | BarClicked o => idx <- liftBar (BottomBar.op o) ;; showItems idx
  | RowClicked id => onRowClicked id
  | ListSearchMore => onListSearchMore
  end.

Definition run (es : list Event) : M unit := RW.iter step es.

(** The re-fired navigation intents among the outputs. *)
Definition refires (o : list Out) : list Z :=
  flat_map (fun e => match e with ERefire i => [i] | _ => [] end) o.

End Inner.

(** ** Predicates used by the properties *)

(** Without a migrated source [waitingForTotal] is never set. *)
Definition ApiSearch_wf (s : ApiSearch.State) : Prop :=
  ApiSearch.hasMigrated s = false -> ApiSearch.waitingForTotal s = false.

(** The bounds a pager keeps once a total [>= 0] has been set. *)
Definition pager_ok (t : BottomBar.State) : Prop :=
  0 <= BottomBar.total t
  /\ 1 <= BottomBar.current t <= Z.max (BottomBar.total t) 1.

(** [s'] extends [s]: the combined messages of [s] are a prefix of those
    of [s'] and the accumulator's token is the same. *)
Definition grows (s s' : ApiSearch.State) : Prop :=
  (exists suf, messages (ApiSearch.concatedFound s')
               = messages (ApiSearch.concatedFound s) ++ suf)
  /\ nextToken (ApiSearch.concatedFound s')
     = nextToken (ApiSearch.concatedFound s).

(** The fetch-more call [ApiSearch::searchMore] makes on a merger. *)
Definition moreCall (a : ApiSearch.State) : Call :=
  if ApiSearch.hasMigrated a && ApiSearch.isFull a
  then MigratedSearchMore else PrimarySearchMore.

(** [m], run from [s], keeps the merger's state and every message it jumps
    to is among the merged results of [s]. *)
Definition goto_safe_at (m : Inner.M unit) (s : Inner.State) : Prop :=
  Inner.api (fst (RW.exec m s)) = Inner.api s
  /\ forall id, In (Inner.EGoTo id) (snd (RW.exec m s)) ->
                In id (messages (ApiSearch.concatedFound (Inner.api s))).

Definition goto_safe (m : Inner.M unit) : Prop := forall s, goto_safe_at m s.


(** * Properties *)

Ltac unfold_rw :=
  unfold RW.exec, RW.bind, RW.get, RW.put, RW.modify, RW.tell, RW.ret,
    RW.iter in *.

(** Case analysis on the tests the handlers make, turning boolean
    results into propositions and discarding impossible branches. *)
Ltac crunch :=
  repeat (simpl in *;
    match goal with
    | H : String.eqb _ _ = true |- _ => apply String.eqb_eq in H
    | H : String.eqb _ _ = false |- _ => apply String.eqb_neq in H
    | H : (_ <=? _) = true |- _ => apply Z.leb_le in H
    | H : (_ <=? _) = false |- _ => apply Z.leb_gt in H
    | H : (_ <? _) = true |- _ => apply Z.ltb_lt in H
    | H : (_ <? _) = false |- _ => apply Z.ltb_ge in H
    | H : (_ =? _)%Z = true |- _ => apply Z.eqb_eq in H
    | H : (_ =? _)%Z = false |- _ => apply Z.eqb_neq in H
    | H : (_ && _) = true |- _ => apply andb_prop in H; destruct H
    | H : (_ && _) = false |- _ => apply andb_false_iff in H; destruct H
    | H : (_ || _) = true |- _ => apply orb_prop in H; destruct H
    | H : (_ || _) = false |- _ => apply orb_false_iff in H; destruct H
    | H : ?x <> ?x |- _ => exfalso; exact (H eq_refl)
    | |- context [if ?b then _ else _] => destruct b eqn:?
    | |- context [match ?x with Some _ => _ | None => _ end] => destruct x eqn:?
    end);
  try (exfalso; lia); try congruence.

(** ** The merger's total (C1) *)

(** The state [ApiSearch] is in right after [clear(); search(r)]. *)
Lemma clear_search_state (s : ApiSearch.State) (r : SearchRequest) :
  fst (RW.exec (ApiSearch.clear ;;; ApiSearch.search r) s) =
  ApiSearch.mk (ApiSearch.hasMigrated s) emptyFound emptyFound
    (ApiSearch.hasMigrated s || ApiSearch.waitingForTotal s)
    (ApiSearch.isFull s).
Proof.
  destruct s as [[] mf cf w f]; reflexivity.
Qed.

(** [ApiSearch_wf] holds for a fresh merger and is kept by every
    operation of the merger. *)
Lemma ApiSearch_wf_init (m : bool) : ApiSearch_wf (ApiSearch.init m).
Proof. unfold ApiSearch_wf; reflexivity. Qed.

Lemma ApiSearch_wf_clear_search (s : ApiSearch.State) (r : SearchRequest) :
  ApiSearch_wf s ->
  ApiSearch_wf (fst (RW.exec (ApiSearch.clear ;;; ApiSearch.search r) s)).
Proof.
  rewrite clear_search_state; unfold ApiSearch_wf; simpl; intros H Hm.
  rewrite Hm, (H Hm); reflexivity.
Qed.

Lemma ApiSearch_wf_arrive (a : ApiSearch.Arrival) (s : ApiSearch.State) :
  ApiSearch_wf s -> ApiSearch_wf (fst (RW.exec (ApiSearch.arrive a) s)).
Proof.
  destruct s as [mig mf cf w f]; unfold ApiSearch_wf; simpl; intro H.
  destruct a as [d|d]; simpl;
    unfold ApiSearch.onPrimaryFound, ApiSearch.onMigratedFound,
      ApiSearch.checkFull, ApiSearch.checkWaitingForTotal,
      ApiSearch.addFound, ApiSearch.fire; unfold_rw; simpl;
    crunch; auto.
Qed.

(** C1: once the primary total [Tp] and the migrated total [Tm] of a fresh
    search are both known, the combined total is [Tp + Tm] and
    "new-results-available" fires, in either arrival order; without a
    migrated source the combined total is [Tp] as soon as the primary page
    arrives, and the signal fires. *)
Theorem C1_combined_total (s : ApiSearch.State) (r : SearchRequest)
    (p m : FoundMessages) :
  ApiSearch_wf s ->
  0 <= total p -> 0 <= total m ->
  nextToken p <> "" -> nextToken m <> "" ->
  let s0 := fst (RW.exec (ApiSearch.clear ;;; ApiSearch.search r) s) in
  (ApiSearch.hasMigrated s = true ->
     (let '(s1, o) :=
        RW.exec (ApiSearch.onPrimaryFound p ;;; ApiSearch.onMigratedFound m) s0 in
      total (ApiSearch.concatedFound s1) = total p + total m
      /\ In (ApiSearch.Fire ApiSearch.NewFounds) o)
     /\
     (let '(s1, o) :=
        RW.exec (ApiSearch.onMigratedFound m ;;; ApiSearch.onPrimaryFound p) s0 in
      total (ApiSearch.concatedFound s1) = total p + total m
      /\ In (ApiSearch.Fire ApiSearch.NewFounds) o))
  /\
  (ApiSearch.hasMigrated s = false ->
     let '(s1, o) := RW.exec (ApiSearch.onPrimaryFound p) s0 in
     total (ApiSearch.concatedFound s1) = total p
     /\ In (ApiSearch.Fire ApiSearch.NewFounds) o).
Proof.
  intros Hwf Hp Hm Htp Htm s0.
  subst s0; rewrite clear_search_state.
  destruct s as [mig mf cf w f]; unfold ApiSearch_wf in Hwf; simpl in *.
  split; intro Hmig; subst mig; simpl in *.
  - split.
    + unfold_rw; unfold ApiSearch.onPrimaryFound, ApiSearch.onMigratedFound,
        ApiSearch.checkFull, ApiSearch.checkWaitingForTotal,
        ApiSearch.addFound, ApiSearch.fire; unfold_rw; simpl.
      crunch; auto with datatypes.
    + unfold_rw; unfold ApiSearch.onPrimaryFound, ApiSearch.onMigratedFound,
        ApiSearch.checkFull, ApiSearch.checkWaitingForTotal,
        ApiSearch.addFound, ApiSearch.fire; unfold_rw; simpl.
      crunch; auto with datatypes.
  - rewrite (Hwf eq_refl); simpl.
    unfold_rw; unfold ApiSearch.onPrimaryFound,
      ApiSearch.checkFull, ApiSearch.checkWaitingForTotal,
      ApiSearch.addFound, ApiSearch.fire; unfold_rw; simpl.
    crunch; auto with datatypes.
Qed.

(** ** Search requests reaching the orchestrator (C3, C9, C10) *)

(** C9: a request with an empty query and no sender filter is dropped:
    the orchestrator's state is unchanged and no remote call is made. *)
Theorem C9_empty_request_suppressed (s : Inner.State) (r : SearchRequest) :
  query r = "" -> from r = None ->
  RW.exec (Inner.step (Inner.SearchRequested r)) s = (s, []).
Proof.
  destruct r as [q f]; simpl; intros -> ->; reflexivity.
Qed.

(** C10: a request with an empty query but a sender filter is a real
    search: the merger is cleared, [waitingForTotal] is raised when a
    migrated source exists, and the search is sent to the adapters. *)
Theorem C10_empty_query_with_sender_searches
    (s : Inner.State) (r : SearchRequest) (p : Z) :
  query r = "" -> from r = Some p ->
  RW.exec (Inner.step (Inner.SearchRequested r)) s =
  (Inner.mk
     (ApiSearch.mk (ApiSearch.hasMigrated (Inner.api s)) emptyFound emptyFound
        (ApiSearch.hasMigrated (Inner.api s)
         || ApiSearch.waitingForTotal (Inner.api s))
        (ApiSearch.isFull (Inner.api s)))
     (Inner.pendingJump s) (Inner.bar s) (Inner.listItems s),
   (if ApiSearch.hasMigrated (Inner.api s)
    then [Inner.ECall (MigratedSearchMessages "" (Some p))] else [])
   ++ [Inner.ECall (PrimarySearchMessages "" (Some p))]).
Proof.
  destruct r as [q f]; simpl; intros -> ->.
  destruct s as [[[] mf cf w fl] pj b l]; reflexivity.
Qed.

(** C3: [ApiSearch::clear] resets the two accumulators but not [_isFull]:
    after a search that reached fullness, a new search starts with
    [isFull] still set, and the next fetch-more goes to the migrated
    source although the primary one has not delivered anything yet. *)
Theorem C3_new_search_keeps_isFull :
  let r1 := {| query := "a"; from := None |} in
  let r2 := {| query := "b"; from := None |} in
  let s1 := fst (RW.exec (Inner.run
              [Inner.SearchRequested r1;
               Inner.PrimaryFound {| total := 1;
                  messages := [{| peer := 1; msg := 10 |}]; nextToken := "a" |};
               Inner.MigratedFound {| total := 0; messages := [];
                  nextToken := "a" |}]) (Inner.init true)) in
  let s2 := fst (RW.exec (Inner.step (Inner.SearchRequested r2)) s1) in
  ApiSearch.isFull (Inner.api s1) = true
  /\ ApiSearch.concatedFound (Inner.api s2) = emptyFound
  /\ ApiSearch.migratedFirstFound (Inner.api s2) = emptyFound
  /\ ApiSearch.waitingForTotal (Inner.api s2) = true
  /\ ApiSearch.isFull (Inner.api s2) = true
  /\ snd (RW.exec (Inner.step Inner.ListSearchMore) s2)
     = [Inner.ECall MigratedSearchMore].
Proof.
  vm_compute; repeat split.
Qed.

(** C2: the same stale [isFull] lets a migrated page of the new search be
    appended while the primary source has delivered 1 of its 2 results. *)
Theorem C2_migrated_before_primary_exhausted :
  let r1 := {| query := "a"; from := None |} in
  let r2 := {| query := "b"; from := None |} in
  let p1 := {| peer := 1; msg := 10 |} in
  let p2 := {| peer := 1; msg := 20 |} in
  let m1 := {| peer := 2; msg := 5 |} in
  let s := fst (RW.exec (Inner.run
              [Inner.SearchRequested r1;
               Inner.PrimaryFound {| total := 1; messages := [p1];
                                     nextToken := "a" |};
               Inner.MigratedFound {| total := 0; messages := [];
                                      nextToken := "a" |};
               Inner.SearchRequested r2;
               Inner.PrimaryFound {| total := 2; messages := [p2];
                                     nextToken := "b" |};
               Inner.MigratedFound {| total := 1; messages := [m1];
                                      nextToken := "b" |}])
              (Inner.init true)) in
  messages (ApiSearch.concatedFound (Inner.api s)) = [p2; m1].
Proof.
  vm_compute; reflexivity.
Qed.

(** ** The query input's cache (C8) *)

Lemma PeerRef_eqb_eq (a b : PeerRef) : PeerRef_eqb a b = true <-> a = b.
Proof.
  destruct a, b; simpl; split; intro H; try discriminate; auto.
  - apply Z.eqb_eq in H; congruence.
  - apply Z.eqb_eq; congruence.
Qed.

Lemma cached_In (s : TopBar.State) :
  TopBar.cached s = true <-> In (TopBar.pairOf s) (TopBar.typedRequests s).
Proof.
  unfold TopBar.cached, TopBar.pairOf; rewrite existsb_exists; split.
  - intros [[q f] [Hin Ht]]; apply andb_prop in Ht; destruct Ht as [Hq Hf].
    apply String.eqb_eq in Hq; apply PeerRef_eqb_eq in Hf; simpl in *.
    subst; exact Hin.
  - intro Hin; eexists; split; [exact Hin|]; simpl.
    rewrite String.eqb_refl; simpl; apply PeerRef_eqb_eq; reflexivity.
Qed.

Lemma cached_false (s : TopBar.State) :
  TopBar.cached s = false <-> ~ In (TopBar.pairOf s) (TopBar.typedRequests s).
Proof.
  rewrite <- cached_In; destruct (TopBar.cached s); split; congruence.
Qed.

(** [requestSearchDelayed] on its own: a cache hit emits the current pair
    at once and stores nothing; otherwise the timer is armed. *)
Lemma requestSearchDelayed_exec (s : TopBar.State) :
  RW.exec TopBar.requestSearchDelayed s =
  if TopBar.cached s then (s, [TopBar.Emit (TopBar.pairOf s)])
  else (TopBar.mk (TopBar.selectQuery s) (TopBar.curFrom s)
          (TopBar.typedRequests s) true, []).
Proof.
  unfold TopBar.requestSearchDelayed, TopBar.requestSearch; unfold_rw.
  destruct (TopBar.cached s); reflexivity.
Qed.

(** C8: typing a (query, sender) pair that is already in the cache
    re-emits it synchronously, leaves the cache and the timer untouched;
    a pair not in the cache emits nothing and (re)starts the timer.  More
    generally every event other than a timer expiry or an explicit submit
    leaves the cache as it is and emits only a cached pair. *)
Theorem C8_cache_hit_reemits (s : TopBar.State) (q : string) :
  let s' := TopBar.mk q (TopBar.curFrom s) (TopBar.typedRequests s)
              (TopBar.timerArmed s) in
  (In (TopBar.pairOf s') (TopBar.typedRequests s) ->
     RW.exec (TopBar.step (TopBar.QueryChanged q)) s
     = (s', [TopBar.Emit (TopBar.pairOf s'); TopBar.QueryChanges]))
  /\ (~ In (TopBar.pairOf s') (TopBar.typedRequests s) ->
     RW.exec (TopBar.step (TopBar.QueryChanged q)) s
     = (TopBar.mk q (TopBar.curFrom s) (TopBar.typedRequests s) true,
        [TopBar.QueryChanges]))
  /\ (forall e, e <> TopBar.Submitted -> e <> TopBar.TimerFired ->
     let '(s1, o) := RW.exec (TopBar.step e) s in
     TopBar.typedRequests s1 = TopBar.typedRequests s
     /\ forall r, In (TopBar.Emit r) o ->
        r = TopBar.pairOf s1 /\ In r (TopBar.typedRequests s)).
Proof.
  intros s'; split; [|split].
  - intro Hin.
    assert (Hc : TopBar.cached s' = true) by (apply cached_In; exact Hin).
    unfold TopBar.step; unfold RW.exec, RW.bind, RW.modify, RW.tell.
    pose proof (requestSearchDelayed_exec s') as E.
    unfold RW.exec in E; fold s'.
    destruct (TopBar.requestSearchDelayed s') as [[u s2] o2].
    rewrite Hc in E; injection E as -> ->; reflexivity.
  - intro Hin.
    assert (Hc : TopBar.cached s' = false) by (apply cached_false; exact Hin).
    unfold TopBar.step; unfold RW.exec, RW.bind, RW.modify, RW.tell.
    pose proof (requestSearchDelayed_exec s') as E.
    unfold RW.exec in E; fold s'.
    destruct (TopBar.requestSearchDelayed s') as [[u s2] o2].
    rewrite Hc in E; injection E as -> ->; reflexivity.
  - intros e Hs Ht.
    assert (Gen : forall t,
      TopBar.typedRequests t = TopBar.typedRequests s ->
      let '(s1, o) := RW.exec TopBar.requestSearchDelayed t in
      TopBar.typedRequests s1 = TopBar.typedRequests s
      /\ forall r, In (TopBar.Emit r) o ->
         r = TopBar.pairOf s1 /\ In r (TopBar.typedRequests s)).
    { intros t Ht'; rewrite requestSearchDelayed_exec.
      destruct (TopBar.cached t) eqn:Hc.
      - split; [exact Ht'|]; intros r [Hr|[]]; injection Hr as <-.
        split; [reflexivity|]; rewrite <- Ht'; apply cached_In; exact Hc.
      - split; [exact Ht'|]; intros r []. }
    destruct e as [q'| | |p|]; try congruence;
      unfold TopBar.step; unfold RW.exec, RW.bind, RW.modify, RW.tell.
    + specialize (Gen (TopBar.mk q' (TopBar.curFrom s) (TopBar.typedRequests s)
                         (TopBar.timerArmed s)) eq_refl).
      unfold RW.exec in Gen.
      destruct (TopBar.requestSearchDelayed _) as [[u s2] o2].
      destruct Gen as [G1 G2]; split; [exact G1|].
      intros r Hr; apply G2; simpl in Hr; rewrite ?app_nil_r in Hr.
      apply in_app_or in Hr; destruct Hr as [Hr|[Hr|[]]]; [exact Hr|discriminate].
    + specialize (Gen (TopBar.mk (TopBar.selectQuery s) p
                         (TopBar.typedRequests s) (TopBar.timerArmed s)) eq_refl).
      unfold RW.exec in Gen.
      destruct (TopBar.requestSearchDelayed _) as [[u s2] o2].
      simpl; exact Gen.
    + specialize (Gen (TopBar.mk (TopBar.selectQuery s) None
                         (TopBar.typedRequests s) (TopBar.timerArmed s)) eq_refl).
      unfold RW.exec in Gen.
      destruct (TopBar.requestSearchDelayed _) as [[u s2] o2].
      simpl; exact Gen.
Qed.

(** ** The pager (C4) *)

Lemma fst_exec_seq {S O A B} (m : @RW.t S O A) (k : @RW.t S O B) (s : S) :
  fst (RW.exec (m ;;; k) s) = fst (RW.exec k (fst (RW.exec m s))).
Proof.
  unfold RW.exec, RW.bind.
  destruct (m s) as [[a s1] o1]; simpl.
  destruct (k s1) as [[b s2] o2]; reflexivity.
Qed.

Lemma fst_exec_iter {S O A} (f : A -> @RW.t S O unit) (x : A) (l : list A)
    (s : S) :
  fst (RW.exec (RW.iter f (x :: l)) s)
  = fst (RW.exec (RW.iter f l) (fst (RW.exec (f x) s))).
Proof. apply fst_exec_seq. Qed.

Lemma op_pager_ok (o : BottomBar.Op) (t : BottomBar.State) :
  pager_ok t ->
  BottomBar.total (fst (RW.exec (BottomBar.op o) t)) = BottomBar.total t
  /\ pager_ok (fst (RW.exec (BottomBar.op o) t)).
Proof.
  destruct t as [tot cur]; unfold pager_ok; simpl; intros [H0 [H1 H2]].
  destruct o; simpl;
    unfold BottomBar.clickNext, BottomBar.clickPrev, BottomBar.nextDisabled,
      BottomBar.prevDisabled, BottomBar.step; unfold_rw; simpl;
    crunch; repeat split; simpl; lia.
Qed.

Lemma ops_pager_ok (ops : list BottomBar.Op) (t : BottomBar.State) :
  pager_ok t ->
  BottomBar.total (fst (RW.exec (RW.iter BottomBar.op ops) t))
  = BottomBar.total t
  /\ pager_ok (fst (RW.exec (RW.iter BottomBar.op ops) t)).
Proof.
  revert t; induction ops as [|o ops IH]; intros t Ht.
  - split; [reflexivity | exact Ht].
  - rewrite fst_exec_iter.
    destruct (op_pager_ok o t Ht) as [E Ht'].
    destruct (IH _ Ht') as [E' Ht'']; split; [congruence | exact Ht''].
Qed.

(** C4 (corrected): [setTotal(n)] always selects position 1, also for
    [n = 0]; afterwards any sequence of arrow clicks keeps
    [1 <= current <= max n 1], a click on "next" does nothing when
    [current >= total] and a click on "previous" does nothing when
    [current <= 1]. *)
Theorem C4_pager_bounds (n : Z) (ops : list BottomBar.Op)
    (s : BottomBar.State) :
  0 <= n ->
  let s' := fst (RW.exec (BottomBar.setTotal n ;;; RW.iter BottomBar.op ops) s) in
  BottomBar.total s' = n
  /\ 1 <= BottomBar.current s' <= Z.max n 1
  /\ (forall t, BottomBar.total t <= BottomBar.current t ->
        RW.exec BottomBar.clickNext t = (t, []))
  /\ (forall t, BottomBar.current t <= 1 ->
        RW.exec BottomBar.clickPrev t = (t, [])).
Proof.
  intros Hn s'; subst s'; rewrite fst_exec_seq.
  assert (H0 : pager_ok (fst (RW.exec (BottomBar.setTotal n) s))).
  { unfold pager_ok; simpl; lia. }
  destruct (ops_pager_ok ops _ H0) as [E [_ H1]].
  rewrite E in *; simpl in *.
  split; [reflexivity | split; [exact H1 | split]].
  - intros [tot cur] H; simpl in H.
    unfold BottomBar.clickNext, BottomBar.nextDisabled; unfold_rw; simpl.
    replace (tot <=? cur) with true by (symmetry; apply Z.leb_le; exact H).
    rewrite orb_true_r; reflexivity.
  - intros [tot cur] H; simpl in H.
    unfold BottomBar.clickPrev, BottomBar.prevDisabled; unfold_rw; simpl.
    replace (cur <=? 1) with true by (symmetry; apply Z.leb_le; exact H).
    reflexivity.
Qed.

(** C4: with [setTotal(0)] the pager selects position 1, outside
    [0 <= current <= total]. *)
Lemma C4_setTotal_zero_selects_one :
  let s := fst (RW.exec (BottomBar.setTotal 0) BottomBar.init) in
  BottomBar.current s = 1 /\ ~ (0 <= BottomBar.current s <= BottomBar.total s).
Proof.
  simpl; split; [reflexivity | lia].
Qed.

(** ** Growth of the combined sequence (C7) *)

Ltac prove_grows :=
  unfold grows; simpl;
  split; [ first [ exists []; rewrite app_nil_r; reflexivity
                 | eexists; rewrite <- ?app_assoc; reflexivity ]
         | reflexivity ].

(** One page arrival whose token is the accumulator's token only appends. *)
Lemma arrive_grows (a : ApiSearch.Arrival) (s : ApiSearch.State) :
  nextToken (ApiSearch.arrivalPage a) = nextToken (ApiSearch.concatedFound s) ->
  grows s (fst (RW.exec (ApiSearch.arrive a) s)).
Proof.
  destruct s as [mig mf [ct cm ctok] w f].
  destruct a as [d|d]; simpl; intro Ht;
    unfold ApiSearch.onPrimaryFound, ApiSearch.onMigratedFound,
      ApiSearch.checkFull, ApiSearch.checkWaitingForTotal,
      ApiSearch.addFound, ApiSearch.fire; unfold_rw; simpl;
    crunch; prove_grows.
Qed.

Lemma grows_trans (s1 s2 s3 : ApiSearch.State) :
  grows s1 s2 -> grows s2 s3 -> grows s1 s3.
Proof.
  intros [[a Ha] Ta] [[b Hb] Tb]; split; [|congruence].
  exists (a ++ b); rewrite Hb, Ha, app_assoc; reflexivity.
Qed.

(** C7: for every sequence of page arrivals (from either source) whose
    token matches the accumulator's token, the combined sequence only
    grows at its end: its length does not decrease and every entry keeps
    its position. *)
Theorem C7_next_pages_only_append (s : ApiSearch.State)
    (l : list ApiSearch.Arrival) :
  Forall (fun a => nextToken (ApiSearch.arrivalPage a)
                   = nextToken (ApiSearch.concatedFound s)) l ->
  let s' := fst (RW.exec (ApiSearch.arriveAll l) s) in
  (length (messages (ApiSearch.concatedFound s))
   <= length (messages (ApiSearch.concatedFound s')))%nat
  /\ exists suf, messages (ApiSearch.concatedFound s')
                 = messages (ApiSearch.concatedFound s) ++ suf.
Proof.
  intros Hl s'.
  assert (G : grows s s').
  { subst s'; unfold ApiSearch.arriveAll.
    assert (R : forall t, grows s t ->
              grows s (fst (RW.exec (RW.iter ApiSearch.arrive l) t))).
    { induction Hl as [|a l Ha Hl IH]; intros t Gt; [exact Gt|].
      rewrite fst_exec_iter; apply IH.
      apply (grows_trans _ t); [exact Gt|].
      apply arrive_grows; destruct Gt as [_ Tt]; congruence. }
    apply R; split; [exists []; rewrite app_nil_r|]; reflexivity. }
  destruct G as [[suf E] _]; split.
  - rewrite E, length_app; lia.
  - exists suf; exact E.
Qed.

(** ** Pending jumps (C5, C6) *)

Lemma exec_bind {S O A B} (m : @RW.t S O A) (k : A -> @RW.t S O B) (s : S) :
  RW.exec (RW.bind m k) s =
  let '(a, s1, o1) := m s in
  let '(s2, o2) := RW.exec (k a) s1 in (s2, o1 ++ o2).
Proof.
  unfold RW.exec, RW.bind.
  destruct (m s) as [[a s1] o1]; destruct (k a s1) as [[b s2] o2]; reflexivity.
Qed.

Lemma iter_cons {S O A} (f : A -> @RW.t S O unit) (x : A) (l : list A) :
  RW.iter f (x :: l) = (f x ;;; RW.iter f l).
Proof. reflexivity. Qed.

Lemma refires_app (o1 o2 : list Inner.Out) :
  Inner.refires (o1 ++ o2) = Inner.refires o1 ++ Inner.refires o2.
Proof. apply flat_map_app. Qed.

Lemma refires_calls (outs : list ApiSearch.Out) (s : Inner.State) :
  Inner.refires (snd (RW.exec (Inner.calls outs) s)) = [].
Proof.
  revert s; induction outs as [|[sg|c] outs IH]; intro s; [reflexivity| |];
    unfold Inner.calls in *; rewrite iter_cons, exec_bind; simpl;
    specialize (IH s); destruct (RW.exec _ s) as [s2 o2] eqn:E;
    simpl in *; exact IH.
Qed.

(** The navigation handler never re-fires a pending jump itself. *)
Lemma showItem_no_refire (i : Z) (s : Inner.State) :
  Inner.refires (snd (RW.exec (Inner.showItem i) s)) = [].
Proof.
  destruct s as [[mig mf [ct cm ctok] w f] pj b l].
  unfold Inner.showItem, Inner.runCalls, Inner.liftApi, Inner.calls,
    Inner.setPending, ApiSearch.searchMore, ApiSearch.request; unfold_rw; simpl.
  crunch; destruct (nth_error cm (Z.to_nat i)); reflexivity.
Qed.

(** A navigation intent beyond the loaded data but below the total:
    exactly one fetch-more call, and a pending jump on the current
    token. *)
Lemma showItem_beyond (i : Z) (s : Inner.State) :
  Inner.loadedSize s <= i ->
  i < total (ApiSearch.concatedFound (Inner.api s)) ->
  RW.exec (Inner.showItem i) s =
  (Inner.mk (Inner.api s)
     {| Inner.token := nextToken (ApiSearch.concatedFound (Inner.api s));
        Inner.index := i |}
     (Inner.bar s) (Inner.listItems s),
   [Inner.ECall (if ApiSearch.hasMigrated (Inner.api s)
                    && ApiSearch.isFull (Inner.api s)
                 then MigratedSearchMore else PrimarySearchMore)]).
Proof.
  destruct s as [[mig mf [ct cm ctok] w f] pj b l].
  unfold Inner.loadedSize; simpl; intros H1 H2.
  unfold Inner.showItem, Inner.runCalls, Inner.liftApi, Inner.calls,
    Inner.setPending, ApiSearch.searchMore, ApiSearch.request; unfold_rw; simpl.
  replace (Z.of_nat (length cm) - 1 <=? i) with true
    by (symmetry; apply Z.leb_le; lia).
  replace (Z.of_nat (length cm) =? ct) with false
    by (symmetry; apply Z.eqb_neq; lia).
  replace (Z.of_nat (length cm) <=? i) with true
    by (symmetry; apply Z.leb_le; lia).
  destruct mig, f; reflexivity.
Qed.

Lemma snd_exec_seq {S O A B} (m : @RW.t S O A) (k : @RW.t S O B) (s : S) :
  snd (RW.exec (m ;;; k) s)
  = snd (RW.exec m s) ++ snd (RW.exec k (fst (RW.exec m s))).
Proof.
  unfold RW.exec, RW.bind.
  destruct (m s) as [[a s1] o1]; simpl.
  destruct (k s1) as [[b s2] o2]; reflexivity.
Qed.

Lemma exec_get_bind {S O B} (k : S -> @RW.t S O B) (s : S) :
  RW.exec (x <- RW.get ;; k x) s = RW.exec (k s) s.
Proof.
  unfold RW.exec, RW.bind, RW.get; simpl.
  destruct (k s s) as [[b s2] o2]; reflexivity.
Qed.

Lemma addItems_silent (ids : list FullMsgId) (c : bool) (s : Inner.State) :
  snd (RW.exec (Inner.addItems ids c) s) = [].
Proof. reflexivity. Qed.

(** The next-page handler re-fires a pending jump on the accumulator's
    token exactly once. *)
Lemma onNextFounds_refires (s : Inner.State) :
  Inner.token (Inner.pendingJump s)
  = nextToken (ApiSearch.concatedFound (Inner.api s)) ->
  0 <= Inner.index (Inner.pendingJump s) ->
  Inner.refires (snd (RW.exec Inner.onNextFounds s))
  = [Inner.index (Inner.pendingJump s)].
Proof.
  intros Ht Hi; unfold Inner.onNextFounds.
  rewrite exec_get_bind, snd_exec_seq, refires_app.
  rewrite Ht, String.eqb_refl, exec_get_bind, addItems_silent, app_nil_r.
  rewrite snd_exec_seq, refires_app.
  replace (0 <=? Inner.index (Inner.pendingJump s)) with true
    by (symmetry; apply Z.leb_le; exact Hi).
  rewrite showItem_no_refire; reflexivity.
Qed.

(** A primary page on the accumulator's token is a next page: it fires
    only "next-page-available" and keeps the token. *)
Lemma primary_next_page (d : FoundMessages) (a : ApiSearch.State) :
  nextToken d = nextToken (ApiSearch.concatedFound a) ->
  exists a', ApiSearch.onPrimaryFound d a = (tt, a', [ApiSearch.Fire ApiSearch.NextFounds])
  /\ nextToken (ApiSearch.concatedFound a') = nextToken (ApiSearch.concatedFound a).
Proof.
  destruct a as [mig mf [ct cm ctok] w f]; simpl; intro Ht.
  unfold ApiSearch.onPrimaryFound, ApiSearch.checkFull, ApiSearch.addFound,
    ApiSearch.fire; unfold_rw; simpl.
  crunch; eexists; split; reflexivity.
Qed.

(** A migrated page continuing the held migrated page is a next page. *)
Lemma migrated_next_page (d : FoundMessages) (a : ApiSearch.State) :
  ApiSearch.hasMigrated a = true ->
  nextToken d = nextToken (ApiSearch.migratedFirstFound a) ->
  exists a', ApiSearch.onMigratedFound d a = (tt, a', [ApiSearch.Fire ApiSearch.NextFounds])
  /\ nextToken (ApiSearch.concatedFound a') = nextToken (ApiSearch.concatedFound a).
Proof.
  destruct a as [mig [mt mm mtok] [ct cm ctok] w f]; simpl; intros -> Ht.
  unfold ApiSearch.onMigratedFound, ApiSearch.addFound,
    ApiSearch.fire; unfold_rw; simpl.
  crunch; eexists; split; reflexivity.
Qed.

(** Dispatching a lone "next-page-available" runs the next-page handler. *)
Lemma arrival_next_page (m : ApiSearch.M unit) (s : Inner.State)
    (a' : ApiSearch.State) :
  m (Inner.api s) = (tt, a', [ApiSearch.Fire ApiSearch.NextFounds]) ->
  snd (RW.exec (outs <- Inner.liftApi m ;; Inner.dispatch outs) s)
  = snd (RW.exec Inner.onNextFounds
           (Inner.mk a' (Inner.pendingJump s) (Inner.bar s) (Inner.listItems s))).
Proof.
  intro E; rewrite exec_bind; unfold Inner.liftApi; rewrite E; simpl.
  unfold Inner.dispatch; rewrite iter_cons.
  destruct (RW.exec (Inner.onNextFounds ;;; _) _) as [s2 o2] eqn:E2.
  simpl; change o2 with (snd (s2, o2)); rewrite <- E2.
  rewrite snd_exec_seq; simpl; rewrite app_nil_r; reflexivity.
Qed.

(** The signals a primary page makes the merger fire: "next page" for a
    page on the accumulator's token, otherwise nothing or "new results". *)
Lemma primary_outs (d : FoundMessages) (a : ApiSearch.State) :
  let o := snd (RW.exec (ApiSearch.onPrimaryFound d) a) in
  (nextToken d = nextToken (ApiSearch.concatedFound a)
   /\ o = [ApiSearch.Fire ApiSearch.NextFounds])
  \/ (nextToken d <> nextToken (ApiSearch.concatedFound a)
      /\ (o = [] \/ o = [ApiSearch.Fire ApiSearch.NewFounds])).
Proof.
  destruct a as [mig mf [ct cm ctok] w f]; destruct d as [dt dm dtok]; simpl.
  unfold ApiSearch.onPrimaryFound, ApiSearch.checkFull,
    ApiSearch.checkWaitingForTotal, ApiSearch.addFound, ApiSearch.fire;
    unfold_rw; simpl.
  crunch; auto.
Qed.

(** The signals a migrated page makes the merger fire: "next page" only
    for a page continuing the held migrated page. *)
Lemma migrated_outs (d : FoundMessages) (a : ApiSearch.State) :
  let o := snd (RW.exec (ApiSearch.onMigratedFound d) a) in
  (o = [] \/ o = [ApiSearch.Fire ApiSearch.NewFounds]
   \/ o = [ApiSearch.Fire ApiSearch.NextFounds])
  /\ (nextToken d <> nextToken (ApiSearch.migratedFirstFound a) ->
      o = [] \/ o = [ApiSearch.Fire ApiSearch.NewFounds]).
Proof.
  destruct a as [mig [mt mm mtok] [ct cm ctok] w f]; destruct d as [dt dm dtok];
    simpl.
  unfold ApiSearch.onMigratedFound, ApiSearch.checkWaitingForTotal,
    ApiSearch.addFound, ApiSearch.fire; unfold_rw; simpl.
  destruct mig, f; crunch; auto.
  all: split; [auto | intro C; congruence].
Qed.

Lemma snd_exec_iter {S O A} (f : A -> @RW.t S O unit) (x : A) (l : list A)
    (s : S) :
  snd (RW.exec (RW.iter f (x :: l)) s)
  = snd (RW.exec (f x) s)
    ++ snd (RW.exec (RW.iter f l) (fst (RW.exec (f x) s))).
Proof. apply snd_exec_seq. Qed.

(** One event of the query input: the cache only grows at its end, and
    every request it emits is in the cache afterwards. *)
Lemma topbar_step_cache (e : TopBar.Event) (s : TopBar.State) :
  let s' := fst (RW.exec (TopBar.step e) s) in
  (exists suf, TopBar.typedRequests s' = TopBar.typedRequests s ++ suf)
  /\ (forall r, In (TopBar.Emit r) (snd (RW.exec (TopBar.step e) s)) ->
                In r (TopBar.typedRequests s')).
Proof.
  destruct s as [q f c a].
  destruct e; unfold TopBar.step, TopBar.requestSearchDelayed,
    TopBar.requestSearch; unfold_rw; simpl.
  all: try (destruct (TopBar.cached _) eqn:Hc; simpl).
  all: try destruct a; simpl.
  all: try (split; [exists []; rewrite app_nil_r; reflexivity|]).
  all: try (split; [eexists; reflexivity|]).
  all: intros r Hr; simpl in Hr.
  all: repeat match goal with
         | H : _ \/ _ |- _ => destruct H
         | H : False |- _ => destruct H
         | H : TopBar.Emit _ = TopBar.Emit _ |- _ => injection H as <-
         | H : TopBar.QueryChanges = _ |- _ => discriminate H
         end.
  all: try (apply in_or_app; right; left; reflexivity).
  all: apply cached_In in Hc; exact Hc.
Qed.

(** The new-results handler is [showItem 0] on the re-selected pager,
    followed by the refill of the list. *)
Lemma onNewFounds_exec (s : Inner.State) :
  let c := ApiSearch.concatedFound (Inner.api s) in
  let s1 := Inner.mk (Inner.api s) (Inner.pendingJump s)
              {| BottomBar.total := total c; BottomBar.current := 1 |}
              (Inner.listItems s) in
  RW.exec Inner.onNewFounds s
  = let '(s2, o2) := RW.exec (Inner.showItem 0) s1 in
    (Inner.mk (Inner.api s2) (Inner.pendingJump s2) (Inner.bar s2)
       (messages c), o2).
Proof.
  intros c s1.
  unfold Inner.onNewFounds; rewrite exec_get_bind, exec_bind.
  assert (E : Inner.liftBar (BottomBar.setTotal (total c)) s = ([0], s1, []))
    by reflexivity.
  fold c; rewrite E.
  unfold Inner.showItems, Inner.addItems; unfold_rw; simpl; unfold_rw.
  destruct (Inner.showItem 0 s1) as [[u s2] o2]; simpl.
  rewrite ?app_nil_r; reflexivity.
Qed.


Lemma onNewFounds_no_refire (s : Inner.State) :
  Inner.refires (snd (RW.exec Inner.onNewFounds s)) = [].
Proof.
  rewrite onNewFounds_exec; cbv zeta.
  pose proof (showItem_no_refire 0
    (Inner.mk (Inner.api s) (Inner.pendingJump s)
       {| BottomBar.total := total (ApiSearch.concatedFound (Inner.api s));
          BottomBar.current := 1 |} (Inner.listItems s))) as H.
  destruct (RW.exec (Inner.showItem 0) _) as [s2 o2]; exact H.
Qed.

(** A page arrival as the orchestrator handles it: the merger runs, then
    its signals are dispatched on the updated state. *)
Lemma arrival_exec (m : ApiSearch.M unit) (s : Inner.State) :
  RW.exec (outs <- Inner.liftApi m ;; Inner.dispatch outs) s
  = let '(a', outs) := RW.exec m (Inner.api s) in
    RW.exec (Inner.dispatch outs)
      (Inner.mk a' (Inner.pendingJump s) (Inner.bar s) (Inner.listItems s)).
Proof.
  unfold RW.exec at 1 2, Inner.liftApi, RW.bind.
  destruct (m (Inner.api s)) as [[u a'] o]; simpl.
  unfold RW.exec; destruct (Inner.dispatch o _) as [[v s2] o2]; reflexivity.
Qed.

Lemma dispatch_one (sg : ApiSearch.Signal) (s : Inner.State) :
  RW.exec (Inner.dispatch [ApiSearch.Fire sg]) s
  = RW.exec (match sg with
             | ApiSearch.NewFounds => Inner.onNewFounds
             | ApiSearch.NextFounds => Inner.onNextFounds
             end) s.
Proof.
  unfold Inner.dispatch, RW.exec, RW.iter, RW.bind, RW.ret.
  destruct sg; destruct (_ s) as [[u s2] o2]; rewrite app_nil_r; reflexivity.
Qed.

(** An arrival that makes the merger fire no "next page" signal re-fires
    nothing. *)
Lemma arrival_no_next_refire (m : ApiSearch.M unit) (s : Inner.State) :
  (snd (RW.exec m (Inner.api s)) = []
   \/ snd (RW.exec m (Inner.api s)) = [ApiSearch.Fire ApiSearch.NewFounds]) ->
  Inner.refires (snd (RW.exec (outs <- Inner.liftApi m ;; Inner.dispatch outs) s))
  = [].
Proof.
  rewrite arrival_exec.
  destruct (RW.exec m (Inner.api s)) as [a' o]; simpl.
  intros [-> | ->]; [reflexivity|].
  rewrite dispatch_one; apply onNewFounds_no_refire.
Qed.

(** C6 (corrected): a navigation intent for an index [i] with
    [loaded count <= i < total] issues exactly one fetch-more call and
    records a pending jump [(current token, i)]. The intent for [i] is
    re-fired exactly once by the next page that continues the search: a
    primary page on the recorded token, or a migrated page continuing the
    held migrated page. Any other page re-fires nothing, whatever its
    token: a primary page on another token, and a migrated page that does
    not continue the held one. *)
Theorem C6_pending_jump_refired (s : Inner.State) (i : Z) :
  Inner.loadedSize s <= i ->
  i < total (ApiSearch.concatedFound (Inner.api s)) ->
  let tok := nextToken (ApiSearch.concatedFound (Inner.api s)) in
  let s1 := fst (RW.exec (Inner.showItem i) s) in
  snd (RW.exec (Inner.showItem i) s)
  = [Inner.ECall (if ApiSearch.hasMigrated (Inner.api s)
                     && ApiSearch.isFull (Inner.api s)
                  then MigratedSearchMore else PrimarySearchMore)]
  /\ Inner.pendingJump s1 = {| Inner.token := tok; Inner.index := i |}
  /\ (forall d, nextToken d = tok ->
        Inner.refires (snd (RW.exec (Inner.step (Inner.PrimaryFound d)) s1))
        = [i])
  /\ (forall d, ApiSearch.hasMigrated (Inner.api s) = true ->
        nextToken d = nextToken (ApiSearch.migratedFirstFound (Inner.api s)) ->
        Inner.refires (snd (RW.exec (Inner.step (Inner.MigratedFound d)) s1))
        = [i])
  /\ (forall d, nextToken d <> tok ->
        Inner.refires (snd (RW.exec (Inner.step (Inner.PrimaryFound d)) s1))
        = [])
  /\ (forall d,
        nextToken d <> nextToken (ApiSearch.migratedFirstFound (Inner.api s)) ->
        Inner.refires (snd (RW.exec (Inner.step (Inner.MigratedFound d)) s1))
        = []).
Proof.
  intros H1 H2 tok s1; subst s1 tok.
  assert (Hi : 0 <= i) by (unfold Inner.loadedSize in H1; lia).
  rewrite (showItem_beyond i s H1 H2); simpl.
  split; [reflexivity | split; [reflexivity | split; [|split; [|split]]]].
  - intros d Hd.
    destruct (primary_next_page d (Inner.api s) Hd) as [a' [E T]].
    unfold Inner.step;
    rewrite (arrival_next_page (ApiSearch.onPrimaryFound d)
      (Inner.mk (Inner.api s)
         {| Inner.token := nextToken (ApiSearch.concatedFound (Inner.api s));
            Inner.index := i |}
         (Inner.bar s) (Inner.listItems s)) a' E).
    apply onNextFounds_refires; simpl; [symmetry; exact T | exact Hi].
  - intros d Hm Hd.
    destruct (migrated_next_page d (Inner.api s) Hm Hd) as [a' [E T]].
    unfold Inner.step;
    rewrite (arrival_next_page (ApiSearch.onMigratedFound d)
      (Inner.mk (Inner.api s)
         {| Inner.token := nextToken (ApiSearch.concatedFound (Inner.api s));
            Inner.index := i |}
         (Inner.bar s) (Inner.listItems s)) a' E).
    apply onNextFounds_refires; simpl; [symmetry; exact T | exact Hi].
  - intros d Hd; unfold Inner.step; apply arrival_no_next_refire; simpl.
    destruct (primary_outs d (Inner.api s)) as [[C _] | [_ O]];
      [congruence | exact O].
  - intros d Hd; unfold Inner.step; apply arrival_no_next_refire; simpl.
    exact (proj2 (migrated_outs d (Inner.api s)) Hd).
Qed.












(** C6: with a migrated source, a search for "q" whose first primary page
    holds 3 of 10 results while the migrated total is still awaited: the
    arrow to index 4 records the pending jump ("q0", 4); the first
    migrated page, on token "q0", completes the totals, so the merger fires
    "new results" instead of "next page": the intent for index 4 is never
    re-fired, and the pending jump is cleared. *)
Lemma C6_migrated_first_page_no_refire :
  let pg l n t := {| total := n; messages := l; nextToken := t |} in
  let m k := {| peer := 1; msg := k |} in
  let s := fst (RW.exec (Inner.run
    [Inner.SearchRequested {| query := "p"; from := None |};
     Inner.PrimaryFound (pg [m 1; m 2; m 3; m 4; m 5] 20 "p0");
     Inner.MigratedFound (pg [] 0 "p0");
     Inner.BarClicked BottomBar.Next;
     Inner.BarClicked BottomBar.Next;
     Inner.BarClicked BottomBar.Next;
     Inner.SearchRequested {| query := "q"; from := None |};
     Inner.PrimaryFound (pg [m 6; m 7; m 8] 10 "q0")])
    (Inner.init true)) in
  let s1 := fst (RW.exec (Inner.step (Inner.BarClicked BottomBar.Next)) s) in
  let d := pg [m 9] 1 "q0" in
  Inner.bar s = {| BottomBar.total := 20; BottomBar.current := 4 |}
  /\ Inner.loadedSize s = 3
  /\ total (ApiSearch.concatedFound (Inner.api s)) = 10
  /\ snd (RW.exec (Inner.step (Inner.BarClicked BottomBar.Next)) s)
     = [Inner.ECall PrimarySearchMore]
  /\ Inner.pendingJump s1 = {| Inner.token := "q0"; Inner.index := 4 |}
  /\ nextToken d = Inner.token (Inner.pendingJump s1)
  /\ Inner.refires (snd (RW.exec (Inner.step (Inner.MigratedFound d)) s1)) = []
  /\ Inner.pendingJump (fst (RW.exec (Inner.step (Inner.MigratedFound d)) s1))
     = Inner.noJump.
Proof.
  vm_compute; repeat split; reflexivity.
Qed.

(** * Witnesses: the theorems at concrete inputs *)

Lemma C1_witness :
  let s := ApiSearch.init true in
  let r := {| query := "alice"; from := None |} in
  let p := {| total := 3; messages := [{| peer := 1; msg := 1 |}];
              nextToken := "alice0" |} in
  let m := {| total := 1; messages := [{| peer := 2; msg := 9 |}];
              nextToken := "alice0" |} in
  ApiSearch_wf s /\ 0 <= total p /\ 0 <= total m
  /\ nextToken p <> "" /\ nextToken m <> ""
  /\ (let s0 := fst (RW.exec (ApiSearch.clear ;;; ApiSearch.search r) s) in
  (ApiSearch.hasMigrated s = true ->
     (let '(s1, o) :=
        RW.exec (ApiSearch.onPrimaryFound p ;;; ApiSearch.onMigratedFound m) s0 in
      total (ApiSearch.concatedFound s1) = total p + total m
      /\ In (ApiSearch.Fire ApiSearch.NewFounds) o)
     /\
     (let '(s1, o) :=
        RW.exec (ApiSearch.onMigratedFound m ;;; ApiSearch.onPrimaryFound p) s0 in
      total (ApiSearch.concatedFound s1) = total p + total m
      /\ In (ApiSearch.Fire ApiSearch.NewFounds) o))
  /\
  (ApiSearch.hasMigrated s = false ->
     let '(s1, o) := RW.exec (ApiSearch.onPrimaryFound p) s0 in
     total (ApiSearch.concatedFound s1) = total p
     /\ In (ApiSearch.Fire ApiSearch.NewFounds) o)).
Proof.
  intros s r p m.
  assert (H1 : ApiSearch_wf s) by (unfold ApiSearch_wf; simpl; discriminate).
  assert (H2 : 0 <= total p) by (simpl; lia).
  assert (H3 : 0 <= total m) by (simpl; lia).
  assert (H4 : nextToken p <> "") by (simpl; discriminate).
  assert (H5 : nextToken m <> "") by (simpl; discriminate).
  exact (conj H1 (conj H2 (conj H3 (conj H4 (conj H5
    (C1_combined_total s r p m H1 H2 H3 H4 H5)))))).
Defined.

Lemma C4_witness :
  0 <= 2 /\
  let s' := fst (RW.exec (BottomBar.setTotal 2 ;;;
                  RW.iter BottomBar.op [BottomBar.Next; BottomBar.Next;
                                        BottomBar.Prev]) BottomBar.init) in
  BottomBar.total s' = 2
  /\ 1 <= BottomBar.current s' <= Z.max 2 1
  /\ (forall t, BottomBar.total t <= BottomBar.current t ->
        RW.exec BottomBar.clickNext t = (t, []))
  /\ (forall t, BottomBar.current t <= 1 ->
        RW.exec BottomBar.clickPrev t = (t, [])).
Proof.
  assert (H : 0 <= 2) by lia.
  exact (conj H (C4_pager_bounds 2 _ BottomBar.init H)).
Defined.

Lemma C6_witness :
  let s := Inner.mk
             (ApiSearch.mk false emptyFound
                {| total := 10;
                   messages := [{| peer := 1; msg := 1 |};
                                {| peer := 1; msg := 2 |};
                                {| peer := 1; msg := 3 |}];
                   nextToken := "t" |} false false)
             Inner.noJump BottomBar.init [] in
  Inner.loadedSize s <= 5 /\ 5 < total (ApiSearch.concatedFound (Inner.api s))
  /\ Inner.refires (snd (RW.exec (Inner.step (Inner.PrimaryFound
         {| total := 10; messages := [{| peer := 1; msg := 4 |}];
            nextToken := "t" |})) (fst (RW.exec (Inner.showItem 5) s))))
     = [5].
Proof.
  intros s.
  assert (H1 : Inner.loadedSize s <= 5) by (vm_compute; discriminate).
  assert (H2 : 5 < total (ApiSearch.concatedFound (Inner.api s)))
    by (vm_compute; reflexivity).
  destruct (C6_pending_jump_refired s 5 H1 H2) as [_ [_ [P _]]].
  exact (conj H1 (conj H2 (P _ eq_refl))).
Defined.

Lemma C7_witness :
  let s := ApiSearch.mk true emptyFound
             {| total := 10; messages := [{| peer := 1; msg := 1 |}];
                nextToken := "t" |} false false in
  let l := [ApiSearch.Primary {| total := 10;
              messages := [{| peer := 1; msg := 2 |}]; nextToken := "t" |};
            ApiSearch.Migrated {| total := 4;
              messages := [{| peer := 2; msg := 7 |}]; nextToken := "t" |}] in
  Forall (fun a => nextToken (ApiSearch.arrivalPage a)
                   = nextToken (ApiSearch.concatedFound s)) l
  /\ exists suf,
       messages (ApiSearch.concatedFound (fst (RW.exec (ApiSearch.arriveAll l) s)))
       = messages (ApiSearch.concatedFound s) ++ suf.
Proof.
  intros s l.
  assert (H : Forall (fun a => nextToken (ApiSearch.arrivalPage a)
                      = nextToken (ApiSearch.concatedFound s)) l)
    by (repeat constructor).
  exact (conj H (proj2 (C7_next_pages_only_append s l H))).
Defined.

Lemma C8_witness :
  let s := TopBar.mk "ab" None [{| query := "a"; from := None |}] false in
  In (TopBar.pairOf (TopBar.mk "a" None [{| query := "a"; from := None |}] false))
     (TopBar.typedRequests s)
  /\ RW.exec (TopBar.step (TopBar.QueryChanged "a")) s
     = (TopBar.mk "a" None [{| query := "a"; from := None |}] false,
        [TopBar.Emit {| query := "a"; from := None |}; TopBar.QueryChanges]).
Proof.
  intros s.
  assert (H : In (TopBar.pairOf (TopBar.mk "a" None
                    [{| query := "a"; from := None |}] false))
                 (TopBar.typedRequests s)) by (simpl; left; reflexivity).
  exact (conj H (proj1 (C8_cache_hit_reemits s "a") H)).
Defined.

Lemma C9_witness :
  let s := Inner.init true in
  let r := {| query := ""; from := None |} in
  query r = "" /\ from r = None
  /\ RW.exec (Inner.step (Inner.SearchRequested r)) s = (s, []).
Proof.
  intros s r.
  assert (H1 : query r = "") by reflexivity.
  assert (H2 : from r = None) by reflexivity.
  exact (conj H1 (conj H2 (C9_empty_request_suppressed s r H1 H2))).
Defined.

Lemma C10_witness :
  let s := Inner.init true in
  let r := {| query := ""; from := Some 42 |} in
  query r = "" /\ from r = Some 42
  /\ snd (RW.exec (Inner.step (Inner.SearchRequested r)) s)
     = [Inner.ECall (MigratedSearchMessages "" (Some 42));
        Inner.ECall (PrimarySearchMessages "" (Some 42))].
Proof.
  intros s r.
  assert (H1 : query r = "") by reflexivity.
  assert (H2 : from r = Some 42) by reflexivity.
  exact (conj H1 (conj H2
    (f_equal snd (C10_empty_query_with_sender_searches s r 42 H1 H2)))).
Defined.

(** * Further properties of the merger *)

Lemma searchMore_state (s : ApiSearch.State) :
  RW.exec ApiSearch.searchMore s
  = (s, [ApiSearch.Request (if ApiSearch.hasMigrated s && ApiSearch.isFull s
                            then MigratedSearchMore else PrimarySearchMore)]).
Proof. destruct s as [[] mf cf w []]; reflexivity. Qed.

(** One merger operation keeps [hasMigrated], never lowers [isFull] and
    keeps [ApiSearch_wf]. *)
Lemma op_frame (o : ApiSearch.Op) (s : ApiSearch.State) :
  let s' := fst (RW.exec (ApiSearch.op o) s) in
  ApiSearch.hasMigrated s' = ApiSearch.hasMigrated s
  /\ (ApiSearch.isFull s = true -> ApiSearch.isFull s' = true)
  /\ (ApiSearch_wf s -> ApiSearch_wf s').
Proof.
  destruct o as [a|r|]; simpl.
  - split; [|split; [|apply ApiSearch_wf_arrive]].
    + destruct s as [mig mf cf w f]; destruct a as [d|d]; simpl;
        unfold ApiSearch.onPrimaryFound, ApiSearch.onMigratedFound,
          ApiSearch.checkFull, ApiSearch.checkWaitingForTotal,
          ApiSearch.addFound, ApiSearch.fire; unfold_rw; simpl;
        crunch; reflexivity.
    + destruct s as [mig mf cf w f]; destruct a as [d|d]; simpl; intro Hf;
        subst f;
        unfold ApiSearch.onPrimaryFound, ApiSearch.onMigratedFound,
          ApiSearch.checkFull, ApiSearch.checkWaitingForTotal,
          ApiSearch.addFound, ApiSearch.fire; unfold_rw; simpl;
        crunch; reflexivity.
  - split; [|split; [|apply ApiSearch_wf_clear_search]];
      rewrite clear_search_state; simpl; auto.
  - rewrite searchMore_state; simpl; auto.
Qed.

Lemma ops_frame (l : list ApiSearch.Op) (s : ApiSearch.State) :
  let s' := fst (RW.exec (ApiSearch.runOps l) s) in
  ApiSearch.hasMigrated s' = ApiSearch.hasMigrated s
  /\ (ApiSearch.isFull s = true -> ApiSearch.isFull s' = true)
  /\ (ApiSearch_wf s -> ApiSearch_wf s').
Proof.
  unfold ApiSearch.runOps.
  revert s; induction l as [|o l IH]; intro s; [simpl; auto|].
  rewrite fst_exec_iter.
  destruct (op_frame o s) as [A [B C]].
  destruct (IH (fst (RW.exec (ApiSearch.op o) s))) as [A' [B' C']].
  split; [congruence | split; auto].
Qed.

(** X1: a merger built without a migrated source never has one and never
    waits for a migrated total, whatever pages, searches and fetch-more
    requests it goes through. *)
Theorem merger_without_migrated_never_waits
    (m : bool) (l : list ApiSearch.Op) :
  let s := fst (RW.exec (ApiSearch.runOps l) (ApiSearch.init m)) in
  ApiSearch.hasMigrated s = m
  /\ (m = false -> ApiSearch.waitingForTotal s = false).
Proof.
  destruct (ops_frame l (ApiSearch.init m)) as [A [_ C]]; simpl in *.
  split; [exact A|]; intro Hm.
  apply (C (ApiSearch_wf_init m)); rewrite A; exact Hm.
Qed.

(** X2: once the merger is full it stays full through any later pages,
    searches and fetch-more requests, and with a migrated source every
    later fetch-more goes to the migrated source. *)
Theorem merger_full_is_sticky (l : list ApiSearch.Op) (s : ApiSearch.State) :
  ApiSearch.isFull s = true ->
  let s' := fst (RW.exec (ApiSearch.runOps l) s) in
  ApiSearch.isFull s' = true
  /\ (ApiSearch.hasMigrated s = true ->
      snd (RW.exec ApiSearch.searchMore s')
      = [ApiSearch.Request MigratedSearchMore]).
Proof.
  intros Hf s'; destruct (ops_frame l s) as [A [B _]].
  assert (F : ApiSearch.isFull s' = true) by (apply B; exact Hf).
  split; [exact F|]; intro Hm.
  assert (A2 : ApiSearch.hasMigrated s' = true) by (rewrite <- Hm; exact A).
  rewrite searchMore_state; cbn [snd]; rewrite A2, F; reflexivity.
Qed.

(** X3: a primary page with a new token replaces the combined results by
    that page; when the page's total equals its own length, the held first
    migrated page is appended and the merger becomes full. It fires
    "new results" at once unless a migrated total is awaited, in which case
    it fires only when both totals are known (>= 0). *)
Theorem primary_fresh_page (d : FoundMessages) (s : ApiSearch.State) :
  nextToken d <> nextToken (ApiSearch.concatedFound s) ->
  let full := total d =? Z.of_nat (length (messages d)) in
  let '(s', outs) := RW.exec (ApiSearch.onPrimaryFound d) s in
  messages (ApiSearch.concatedFound s')
    = messages d ++ (if full then messages (ApiSearch.migratedFirstFound s)
                     else [])
  /\ nextToken (ApiSearch.concatedFound s') = nextToken d
  /\ ApiSearch.isFull s' = ApiSearch.isFull s || full
  /\ ApiSearch.migratedFirstFound s' = ApiSearch.migratedFirstFound s
  /\ outs = (if ApiSearch.waitingForTotal s
             then if (0 <=? total d)
                     && (0 <=? total (ApiSearch.migratedFirstFound s))
                  then [ApiSearch.Fire ApiSearch.NewFounds] else []
             else [ApiSearch.Fire ApiSearch.NewFounds]).
Proof.
  destruct s as [mig [mt mm mtok] [ct cm ctok] w f]; destruct d as [dt dm dtok];
    simpl; intro Ht.
  unfold ApiSearch.onPrimaryFound, ApiSearch.checkFull,
    ApiSearch.checkWaitingForTotal, ApiSearch.addFound, ApiSearch.fire;
    unfold_rw; simpl.
  crunch; rewrite ?app_nil_r, ?orb_true_r, ?orb_false_r; auto.
Qed.

(** X4: a primary page on the accumulator's token is appended to the
    combined results; when the page brings the loaded count to the page's
    total, the held first migrated page follows it and the merger becomes
    full. The combined total and token are kept and the only signal is
    "next page". *)
Theorem primary_next_page_appends (d : FoundMessages) (s : ApiSearch.State) :
  nextToken d = nextToken (ApiSearch.concatedFound s) ->
  let loaded := messages (ApiSearch.concatedFound s) ++ messages d in
  let full := total d =? Z.of_nat (length loaded) in
  let '(s', outs) := RW.exec (ApiSearch.onPrimaryFound d) s in
  messages (ApiSearch.concatedFound s')
    = loaded ++ (if full then messages (ApiSearch.migratedFirstFound s)
                 else [])
  /\ total (ApiSearch.concatedFound s') = total (ApiSearch.concatedFound s)
  /\ nextToken (ApiSearch.concatedFound s') = nextToken (ApiSearch.concatedFound s)
  /\ ApiSearch.isFull s' = ApiSearch.isFull s || full
  /\ outs = [ApiSearch.Fire ApiSearch.NextFounds].
Proof.
  destruct s as [mig [mt mm mtok] [ct cm ctok] w f]; destruct d as [dt dm dtok];
    simpl; intro Ht.
  unfold ApiSearch.onPrimaryFound, ApiSearch.checkFull,
    ApiSearch.checkWaitingForTotal, ApiSearch.addFound, ApiSearch.fire;
    unfold_rw; simpl.
  crunch; rewrite ?app_nil_r, ?app_assoc, ?orb_true_r, ?orb_false_r; auto.
Qed.

(** X5: a migrated page is shown only once the merger is full: before
    that the combined messages are left as they are, afterwards the page
    is appended to them. The [isFull] flag itself is not changed. *)
Theorem migrated_page_waits_for_full (d : FoundMessages) (s : ApiSearch.State) :
  ApiSearch.hasMigrated s = true ->
  let s' := fst (RW.exec (ApiSearch.onMigratedFound d) s) in
  messages (ApiSearch.concatedFound s')
    = messages (ApiSearch.concatedFound s)
      ++ (if ApiSearch.isFull s then messages d else [])
  /\ ApiSearch.isFull s' = ApiSearch.isFull s.
Proof.
  destruct s as [mig [mt mm mtok] [ct cm ctok] w f]; destruct d as [dt dm dtok];
    simpl; intro Hm; subst mig.
  unfold ApiSearch.onMigratedFound, ApiSearch.checkWaitingForTotal,
    ApiSearch.addFound, ApiSearch.fire; unfold_rw; simpl.
  destruct f; crunch; rewrite ?app_nil_r; auto.
Qed.

(** * Further properties of the query input, the pager and the widget *)


(** X6: over any sequence of events of the query input, the cache of
    typed requests only grows at its end, and every request the input
    emits is in the cache at the end of the sequence. *)
Theorem topbar_cache_holds_emitted (es : list TopBar.Event) (s : TopBar.State) :
  let s' := fst (RW.exec (RW.iter TopBar.step es) s) in
  (exists suf, TopBar.typedRequests s' = TopBar.typedRequests s ++ suf)
  /\ (forall r, In (TopBar.Emit r) (snd (RW.exec (RW.iter TopBar.step es) s)) ->
                In r (TopBar.typedRequests s')).
Proof.
  revert s; induction es as [|e es IH]; intro s.
  - split; [exists []; rewrite app_nil_r; reflexivity | intros r []].
  - rewrite fst_exec_iter, snd_exec_iter.
    destruct (topbar_step_cache e s) as [[suf1 E1] H1].
    destruct (IH (fst (RW.exec (TopBar.step e) s))) as [[suf2 E2] H2].
    split.
    + exists (suf1 ++ suf2); rewrite E2, E1, app_assoc; reflexivity.
    + intros r Hr; apply in_app_or in Hr; destruct Hr as [Hr|Hr].
      * rewrite E2; apply in_or_app; left; exact (H1 r Hr).
      * exact (H2 r Hr).
Qed.


(** An arrow click on a pager whose position is at most [max total 1]:
    the bound is kept, the total is unchanged and every emitted index lies
    in [[0, total)]. *)
Lemma bar_op_indices (o : BottomBar.Op) (t : BottomBar.State) :
  BottomBar.current t <= Z.max (BottomBar.total t) 1 ->
  let t' := fst (RW.exec (BottomBar.op o) t) in
  BottomBar.total t' = BottomBar.total t
  /\ BottomBar.current t' <= Z.max (BottomBar.total t') 1
  /\ Forall (fun i => 0 <= i < BottomBar.total t)
            (snd (RW.exec (BottomBar.op o) t)).
Proof.
  destruct t as [tot cur]; simpl; intro H.
  destruct o; simpl;
    unfold BottomBar.clickNext, BottomBar.clickPrev, BottomBar.nextDisabled,
      BottomBar.prevDisabled, BottomBar.step; unfold_rw; simpl;
    crunch; repeat split; simpl; repeat constructor; lia.
Qed.

(** From any position at most [max total 1], arrow clicks only emit
    indices in [[0, total)]. *)
Theorem bar_clicks_stay_in_range (ops : list BottomBar.Op)
    (t : BottomBar.State) :
  BottomBar.current t <= Z.max (BottomBar.total t) 1 ->
  Forall (fun i => 0 <= i < BottomBar.total t)
         (snd (RW.exec (RW.iter BottomBar.op ops) t)).
Proof.
  revert t; induction ops as [|o ops IH]; intros t Ht; [constructor|].
  rewrite snd_exec_iter; apply Forall_app.
  destruct (bar_op_indices o t Ht) as [E [Ht' F]].
  split; [exact F|].
  rewrite <- E; apply IH; exact Ht'.
Qed.

(** X7: after [setTotal n], whatever arrow clicks follow, every index the
    pager asks to show lies in [[0, n)]. *)
Theorem bar_clicks_after_setTotal (n : Z) (t : BottomBar.State)
    (ops : list BottomBar.Op) :
  Forall (fun i => 0 <= i < n)
    (snd (RW.exec (RW.iter BottomBar.op ops)
                  (fst (RW.exec (BottomBar.setTotal n) t)))).
Proof.
  apply (bar_clicks_stay_in_range ops {| BottomBar.total := n; BottomBar.current := 1 |}).
  simpl; lia.
Qed.


(** The navigation handler on a loaded index. *)
Lemma showItem_loaded (i : Z) (s : Inner.State) :
  0 <= i < Inner.loadedSize s ->
  let c := ApiSearch.concatedFound (Inner.api s) in
  exists id,
    nth_error (messages c) (Z.to_nat i) = Some id
    /\ RW.exec (Inner.showItem i) s
       = (Inner.mk (Inner.api s) Inner.noJump (Inner.bar s) (Inner.listItems s),
          (if (i =? Inner.loadedSize s - 1) && negb (Inner.loadedSize s =? total c)
           then [Inner.ECall (moreCall (Inner.api s))] else [])
          ++ [Inner.EGoTo id; Inner.EHideList]).
Proof.
  destruct s as [[mig mf [ct cm ctok] w f] pj b l].
  unfold Inner.loadedSize; simpl; intro H.
  destruct (nth_error cm (Z.to_nat i)) as [id|] eqn:E.
  2: { apply nth_error_None in E; lia. }
  exists id; split; [reflexivity|].
  unfold Inner.showItem, Inner.runCalls, Inner.liftApi, Inner.calls,
    Inner.setPending, ApiSearch.searchMore, ApiSearch.request, moreCall;
    unfold_rw; simpl.
  rewrite E.
  crunch; destruct mig, f; reflexivity.
Qed.

(** X8: a navigation intent for a loaded index clears the pending jump,
    jumps to the message at that index and hides the list; the only other
    output is one fetch-more, before the jump, when the index is the last
    loaded one and more results exist. The merger is not changed. *)
Theorem showItem_loaded_jumps (i : Z) (s : Inner.State) :
  0 <= i < Inner.loadedSize s ->
  let c := ApiSearch.concatedFound (Inner.api s) in
  exists id,
    nth_error (messages c) (Z.to_nat i) = Some id
    /\ RW.exec (Inner.showItem i) s
       = (Inner.mk (Inner.api s) Inner.noJump (Inner.bar s) (Inner.listItems s),
          (if (i =? Inner.loadedSize s - 1) && negb (Inner.loadedSize s =? total c)
           then [Inner.ECall (moreCall (Inner.api s))] else [])
          ++ [Inner.EGoTo id; Inner.EHideList]).
Proof. exact (showItem_loaded i s). Qed.


(** The new-results handler in full. *)
Lemma onNewFounds_result (s : Inner.State) :
  let a := Inner.api s in
  let c := ApiSearch.concatedFound a in
  let '(s', outs) := RW.exec Inner.onNewFounds s in
  Inner.api s' = a
  /\ Inner.bar s' = {| BottomBar.total := total c; BottomBar.current := 1 |}
  /\ match messages c with
     | [] =>
         Inner.pendingJump s' = {| Inner.token := nextToken c; Inner.index := 0 |}
         /\ outs = (if total c =? 0 then [] else [Inner.ECall (moreCall a)])
     | id :: _ =>
         Inner.pendingJump s' = Inner.noJump
         /\ outs = (if (Inner.loadedSize s =? 1)
                       && negb (Inner.loadedSize s =? total c)
                    then [Inner.ECall (moreCall a)] else [])
                   ++ [Inner.EGoTo id; Inner.EHideList]
     end.
Proof.
  intros a c; rewrite onNewFounds_exec; fold a c.
  set (s1 := Inner.mk a (Inner.pendingJump s)
               {| BottomBar.total := total c; BottomBar.current := 1 |}
               (Inner.listItems s)).
  destruct (messages c) as [|id rest] eqn:Em.
  - destruct a as [mig mf [ct cm ctok] w f]; simpl in c; subst c; simpl in Em; subst cm.
    unfold s1, Inner.showItem, Inner.runCalls, Inner.liftApi, Inner.calls,
      Inner.setPending, ApiSearch.searchMore, ApiSearch.request, moreCall;
      unfold_rw; simpl.
    destruct ct, mig, f; simpl; auto.
  - assert (L : 0 <= 0 < Inner.loadedSize s1).
    { unfold Inner.loadedSize; simpl; fold a c; rewrite Em; simpl; lia. }
    destruct (showItem_loaded 0 s1 L) as [id' [N E]].
    simpl in N; fold a c in N; rewrite Em in N; simpl in N; injection N as <-.
    replace (Inner.loadedSize s1) with (Inner.loadedSize s) in E by reflexivity.
    replace (0 =? Inner.loadedSize s - 1) with (Inner.loadedSize s =? 1) in E
      by (destruct (Z.eqb_spec (Inner.loadedSize s) 1);
          destruct (Z.eqb_spec 0 (Inner.loadedSize s - 1)); lia).
    rewrite E; hnf.
    repeat split; reflexivity.
Qed.

(** X10: the "new results" handler puts the pager on {total, 1}; with
    results loaded it clears the pending jump and shows the first one
    (prefetching first when it is the only one loaded and more exist);
    with none it records a pending jump to index 0 on the new token and
    fetches more unless the total is 0. The merged results are not
    changed. *)
Theorem onNewFounds_shows_first (s : Inner.State) :
  let a := Inner.api s in
  let c := ApiSearch.concatedFound a in
  let '(s', outs) := RW.exec Inner.onNewFounds s in
  Inner.api s' = a
  /\ Inner.bar s' = {| BottomBar.total := total c; BottomBar.current := 1 |}
  /\ match messages c with
     | [] =>
         Inner.pendingJump s' = {| Inner.token := nextToken c; Inner.index := 0 |}
         /\ outs = (if total c =? 0 then [] else [Inner.ECall (moreCall a)])
     | id :: _ =>
         Inner.pendingJump s' = Inner.noJump
         /\ outs = (if (Inner.loadedSize s =? 1)
                       && negb (Inner.loadedSize s =? total c)
                    then [Inner.ECall (moreCall a)] else [])
                   ++ [Inner.EGoTo id; Inner.EHideList]
     end.
Proof. exact (onNewFounds_result s). Qed.


Lemma FullMsgId_eqb_eq (a b : FullMsgId) : FullMsgId_eqb a b = true <-> a = b.
Proof.
  destruct a as [p m], b as [p' m']; unfold FullMsgId_eqb; simpl.
  rewrite andb_true_iff, !Z.eqb_eq; split.
  - intros [-> ->]; reflexivity.
  - intro H; injection H as -> ->; auto.
Qed.

(** [findIndex] finds the first position of a message that is present. *)
Lemma findIndex_first (id : FullMsgId) (l : list FullMsgId) :
  In id l ->
  exists k, Inner.findIndex id l = Some k
            /\ nth_error l k = Some id
            /\ forall j, (j < k)%nat -> nth_error l j <> Some id.
Proof.
  induction l as [|x l IH]; intro H; [destruct H|]; simpl.
  destruct (FullMsgId_eqb x id) eqn:E.
  - apply FullMsgId_eqb_eq in E; subst x.
    exists O; repeat split; intros j Hj; lia.
  - assert (Hx : x <> id) by (intro C; apply FullMsgId_eqb_eq in C; congruence).
    destruct H as [H|H]; [congruence|].
    destruct (IH H) as [k [F [N B]]].
    exists (S k); rewrite F; repeat split; [exact N|].
    intros [|j] Hj; simpl; [congruence|]; apply B; lia.
Qed.

(** X11: clicking a row whose message is among the loaded results moves the
    pager to the position of its first occurrence (keeping the total),
    clears the pending jump and jumps to that message, then hides the
    list; the only other output is a fetch-more when it is the last loaded
    result and more exist. The merged results are not changed. *)
Theorem onRowClicked_jumps (id : FullMsgId) (s : Inner.State) :
  In id (messages (ApiSearch.concatedFound (Inner.api s))) ->
  let '(s', outs) := RW.exec (Inner.step (Inner.RowClicked id)) s in
  exists k,
    nth_error (messages (ApiSearch.concatedFound (Inner.api s))) k = Some id
    /\ (forall j, (j < k)%nat ->
          nth_error (messages (ApiSearch.concatedFound (Inner.api s))) j
          <> Some id)
    /\ Inner.api s' = Inner.api s
    /\ Inner.bar s' = {| BottomBar.total := BottomBar.total (Inner.bar s);
                         BottomBar.current := Z.of_nat k + 1 |}
    /\ Inner.pendingJump s' = Inner.noJump
    /\ (outs = [Inner.EGoTo id; Inner.EHideList]
        \/ outs = [Inner.ECall (moreCall (Inner.api s));
                   Inner.EGoTo id; Inner.EHideList]).
Proof.
  intro H; destruct (findIndex_first _ _ H) as [k [F [N B]]].
  simpl; unfold Inner.onRowClicked; rewrite exec_get_bind, F, exec_bind.
  set (s1 := Inner.mk (Inner.api s) (Inner.pendingJump s)
               {| BottomBar.total := BottomBar.total (Inner.bar s);
                  BottomBar.current := Z.of_nat k + 1 |} (Inner.listItems s)).
  assert (E : Inner.liftBar (BottomBar.setCurrent (Z.of_nat k + 1)) s
              = ([Z.of_nat k + 1 - 1], s1, [])) by reflexivity.
  rewrite E; replace (Z.of_nat k + 1 - 1) with (Z.of_nat k) by lia.
  assert (L : 0 <= Z.of_nat k < Inner.loadedSize s1).
  { unfold Inner.loadedSize; simpl.
    assert (k < length (messages (ApiSearch.concatedFound (Inner.api s))))%nat
      by (apply nth_error_Some; congruence).
    lia. }
  destruct (showItem_loaded (Z.of_nat k) s1 L) as [id' [N' E']].
  simpl in N'; rewrite Nat2Z.id, N in N'; injection N' as <-.
  unfold Inner.showItems; unfold_rw; simpl; unfold_rw.
  unfold RW.exec in E'.
  destruct (Inner.showItem (Z.of_nat k) s1) as [[u s2] o2]; injection E' as -> ->.
  exists k; split; [exact N|]; split; [exact B|].
  simpl; rewrite ?app_nil_r.
  repeat split.
  destruct (_ && _); [right|left]; reflexivity.
Qed.



Lemma goto_safe_seq_at (m k : Inner.M unit) (s : Inner.State) :
  goto_safe_at m s -> goto_safe_at k (fst (RW.exec m s)) ->
  goto_safe_at (m ;;; k) s.
Proof.
  intros [A1 G1] [A2 G2].
  unfold goto_safe_at; rewrite fst_exec_seq, snd_exec_seq; split; [congruence|].
  intros id H; apply in_app_or in H; destruct H as [H|H]; [auto|].
  rewrite <- A1; auto.
Qed.

Lemma goto_safe_seq (m k : Inner.M unit) :
  goto_safe m -> goto_safe k -> goto_safe (m ;;; k).
Proof. intros Hm Hk s; apply goto_safe_seq_at; auto. Qed.

Lemma goto_safe_iter {A} (f : A -> Inner.M unit) (l : list A) :
  (forall x, goto_safe (f x)) -> goto_safe (RW.iter f l).
Proof.
  intro Hf; induction l as [|x l IH]; [|apply goto_safe_seq; auto].
  intro s; split; [reflexivity | intros id []].
Qed.

Lemma goto_safe_get (k : Inner.State -> Inner.M unit) :
  (forall s, goto_safe_at (k s) s) -> goto_safe (x <- RW.get ;; k x).
Proof. intros H s; unfold goto_safe_at; rewrite exec_get_bind; apply H. Qed.

Lemma goto_safe_liftBar (bm : BottomBar.M unit) (k : list Z -> Inner.M unit)
    (s : Inner.State) :
  (forall idx s', Inner.api s' = Inner.api s -> goto_safe_at (k idx) s') ->
  goto_safe_at (idx <- Inner.liftBar bm ;; k idx) s.
Proof.
  intro H; unfold goto_safe_at, Inner.liftBar, RW.exec, RW.bind.
  destruct (bm (Inner.bar s)) as [[u b'] o].
  specialize (H o (Inner.mk (Inner.api s) (Inner.pendingJump s) b'
                     (Inner.listItems s)) eq_refl).
  unfold goto_safe_at, RW.exec in H.
  destruct (k o _) as [[v s2] o2]; simpl in *; exact H.
Qed.

Lemma calls_no_goto (outs : list ApiSearch.Out) (s : Inner.State) (id : FullMsgId) :
  ~ In (Inner.EGoTo id) (snd (RW.exec (Inner.calls outs) s)).
Proof.
  revert s; induction outs as [|o outs IH]; intro s; [intros []|].
  unfold Inner.calls; rewrite snd_exec_iter; intro H.
  apply in_app_or in H; destruct H as [H|H]; [|exact (IH _ H)].
  destruct o; simpl in H; [exact H|].
  destruct H as [H|[]]; discriminate.
Qed.

Lemma runCalls_no_goto (m : ApiSearch.M unit) (s : Inner.State) (id : FullMsgId) :
  ~ In (Inner.EGoTo id) (snd (RW.exec (Inner.runCalls m) s)).
Proof.
  unfold Inner.runCalls, RW.exec, Inner.liftApi, RW.bind.
  destruct (m (Inner.api s)) as [[u a'] o]; simpl.
  pose proof (calls_no_goto o
                (Inner.mk a' (Inner.pendingJump s) (Inner.bar s) (Inner.listItems s)) id)
    as H.
  unfold RW.exec in H; destruct (Inner.calls o _) as [[v s2] o2]; simpl in *.
  exact H.
Qed.

Lemma showItem_goto_safe (i : Z) : goto_safe (Inner.showItem i).
Proof.
  intros [[mig mf [ct cm ctok] w f] pj b l].
  unfold goto_safe_at, Inner.showItem, Inner.runCalls, Inner.liftApi,
    Inner.calls, Inner.setPending, ApiSearch.searchMore, ApiSearch.request;
    unfold_rw; simpl.
  destruct (nth_error cm (Z.to_nat i)) as [x|] eqn:E;
    crunch; destruct mig, f; simpl; split; auto;
    intros id Hin.
  all: repeat match goal with
         | H : _ \/ _ |- _ => destruct H
         | H : False |- _ => destruct H
         | H : Inner.EGoTo _ = Inner.EGoTo _ |- _ => injection H as <-
         | H : _ = Inner.EGoTo _ |- _ => discriminate H
         end.
  all: exact (nth_error_In _ _ E).
Qed.

Lemma addItems_goto_safe (ids : list FullMsgId) (c : bool) :
  goto_safe (Inner.addItems ids c).
Proof. intro s; split; [reflexivity | intros id []]. Qed.

Lemma onNewFounds_goto_safe : goto_safe Inner.onNewFounds.
Proof.
  apply goto_safe_get; intro s; apply goto_safe_liftBar; intros idx s' A.
  rewrite <- A; apply goto_safe_seq;
    [apply goto_safe_iter, showItem_goto_safe | apply addItems_goto_safe].
Qed.

Lemma onNextFounds_goto_safe : goto_safe Inner.onNextFounds.
Proof.
  apply goto_safe_get; intro s; apply goto_safe_seq_at.
  - destruct (String.eqb _ _).
    + apply goto_safe_seq.
      * intro t; split; [reflexivity|]; intros id [H|[]]; discriminate.
      * intro t; destruct (0 <=? _); [apply showItem_goto_safe|].
        split; [reflexivity | intros id []].
    + split; [reflexivity | intros id []].
  - apply goto_safe_get; intro t; apply addItems_goto_safe.
Qed.

Lemma dispatch_goto_safe (outs : list ApiSearch.Out) :
  goto_safe (Inner.dispatch outs).
Proof.
  apply goto_safe_iter; intros [[]|c].
  - apply onNewFounds_goto_safe.
  - apply onNextFounds_goto_safe.
  - intro s; split; [reflexivity|]; intros id [H|[]]; discriminate.
Qed.

Lemma liftApi_dispatch (m : ApiSearch.M unit) (s : Inner.State) (id : FullMsgId) :
  let r := RW.exec (outs <- Inner.liftApi m ;; Inner.dispatch outs) s in
  In (Inner.EGoTo id) (snd r) ->
  In id (messages (ApiSearch.concatedFound (Inner.api (fst r)))).
Proof.
  unfold RW.exec, Inner.liftApi, RW.bind.
  destruct (m (Inner.api s)) as [[u a'] o]; simpl.
  set (s1 := Inner.mk a' (Inner.pendingJump s) (Inner.bar s) (Inner.listItems s)).
  destruct (dispatch_goto_safe o s1) as [A G].
  unfold RW.exec in A, G.
  destruct (Inner.dispatch o s1) as [[v s2] o2]; simpl in *.
  rewrite A; exact (G id).
Qed.

(** X13: whatever event the search widget handles, every message it jumps to
    is among the merged search results it holds after the event. *)
Theorem step_jumps_into_results (e : Inner.Event) (s : Inner.State)
    (id : FullMsgId) :
  In (Inner.EGoTo id) (snd (RW.exec (Inner.step e) s)) ->
  In id (messages (ApiSearch.concatedFound
                     (Inner.api (fst (RW.exec (Inner.step e) s))))).
Proof.
  destruct e as [r|d|d|o|x|]; unfold Inner.step; cbv beta iota.
  - unfold Inner.onSearchRequest; destruct (_ && _); [intros []|].
    intro H; exfalso; exact (runCalls_no_goto _ s id H).
  - apply liftApi_dispatch.
  - apply liftApi_dispatch.
  - destruct (goto_safe_liftBar (BottomBar.op o) Inner.showItems s) as [A G].
    + intros idx s' _; apply goto_safe_iter, showItem_goto_safe.
    + rewrite A; exact (G id).
  - destruct (goto_safe_get (fun t =>
        match Inner.findIndex x (messages (ApiSearch.concatedFound (Inner.api t))) with
        | Some k => idx <- Inner.liftBar (BottomBar.setCurrent (Z.of_nat k + 1)) ;;
                    Inner.showItems idx
        | None => RW.ret tt
        end)) with (s := s) as [A G].
    + intro t; destruct (Inner.findIndex _ _).
      * apply goto_safe_liftBar; intros idx s' _;
          apply goto_safe_iter, showItem_goto_safe.
      * split; [reflexivity | intros i []].
    + intro H; specialize (G id H); rewrite <- A in G; exact G.
  - unfold Inner.onListSearchMore; rewrite exec_get_bind.
    destruct (negb _); [|intros []].
    intro H; exfalso; exact (runCalls_no_goto _ s id H).
Qed.

(** X9: a navigation intent at or beyond the loaded results never jumps:
    it records a pending jump for that index on the current token, and
    asks for one more page exactly when not all results are loaded. *)
Theorem showItem_beyond_loaded (i : Z) (s : Inner.State) :
  Inner.loadedSize s <= i ->
  let c := ApiSearch.concatedFound (Inner.api s) in
  RW.exec (Inner.showItem i) s
  = (Inner.mk (Inner.api s) {| Inner.token := nextToken c; Inner.index := i |}
       (Inner.bar s) (Inner.listItems s),
     if Inner.loadedSize s =? total c then []
     else [Inner.ECall (moreCall (Inner.api s))]).
Proof.
  destruct s as [[mig mf [ct cm ctok] w f] pj b l].
  unfold Inner.loadedSize; simpl; intro H.
  unfold Inner.showItem, Inner.runCalls, Inner.liftApi, Inner.calls,
    Inner.setPending, ApiSearch.searchMore, ApiSearch.request, moreCall;
    unfold_rw; simpl.
  replace (Z.of_nat (length cm) - 1 <=? i) with true
    by (symmetry; apply Z.leb_le; lia).
  replace (Z.of_nat (length cm) <=? i) with true
    by (symmetry; apply Z.leb_le; lia).
  destruct (Z.of_nat (length cm) =? ct), mig, f; reflexivity.
Qed.

(** * Witnesses of the further properties *)

Lemma X1_witness :
  let l := [ApiSearch.NewSearch {| query := "a"; from := None |};
            ApiSearch.Arrive (ApiSearch.Primary
              {| total := 1; messages := [{| peer := 1; msg := 1 |}];
                 nextToken := "a" |});
            ApiSearch.More] in
  ApiSearch.hasMigrated (fst (RW.exec (ApiSearch.runOps l) (ApiSearch.init false)))
  = false
  /\ (false = false ->
      ApiSearch.waitingForTotal
        (fst (RW.exec (ApiSearch.runOps l) (ApiSearch.init false))) = false).
Proof.
  intro l; exact (merger_without_migrated_never_waits false l).
Defined.

Lemma X2_witness :
  let s := ApiSearch.mk true emptyFound emptyFound false true in
  let l := [ApiSearch.NewSearch {| query := "b"; from := None |};
            ApiSearch.Arrive (ApiSearch.Primary
              {| total := 2; messages := [{| peer := 1; msg := 1 |}];
                 nextToken := "b" |})] in
  ApiSearch.isFull s = true
  /\ (let s' := fst (RW.exec (ApiSearch.runOps l) s) in
      ApiSearch.isFull s' = true
      /\ (ApiSearch.hasMigrated s = true ->
          snd (RW.exec ApiSearch.searchMore s')
          = [ApiSearch.Request MigratedSearchMore])).
Proof.
  intros s l.
  assert (H : ApiSearch.isFull s = true) by reflexivity.
  exact (conj H (merger_full_is_sticky l s H)).
Defined.

Lemma X3_witness :
  let d := {| total := 1; messages := [{| peer := 1; msg := 1 |}];
              nextToken := "b" |} in
  let s := ApiSearch.mk true
             {| total := 1; messages := [{| peer := 2; msg := 5 |}];
                nextToken := "b" |}
             emptyFound true false in
  nextToken d <> nextToken (ApiSearch.concatedFound s)
  /\ (let full := total d =? Z.of_nat (length (messages d)) in
      let '(s', outs) := RW.exec (ApiSearch.onPrimaryFound d) s in
      messages (ApiSearch.concatedFound s')
        = messages d ++ (if full then messages (ApiSearch.migratedFirstFound s)
                         else [])
      /\ nextToken (ApiSearch.concatedFound s') = nextToken d
      /\ ApiSearch.isFull s' = ApiSearch.isFull s || full
      /\ ApiSearch.migratedFirstFound s' = ApiSearch.migratedFirstFound s
      /\ outs = (if ApiSearch.waitingForTotal s
                 then if (0 <=? total d)
                         && (0 <=? total (ApiSearch.migratedFirstFound s))
                      then [ApiSearch.Fire ApiSearch.NewFounds] else []
                 else [ApiSearch.Fire ApiSearch.NewFounds])).
Proof.
  intros d s.
  assert (H : nextToken d <> nextToken (ApiSearch.concatedFound s))
    by (simpl; discriminate).
  exact (conj H (primary_fresh_page d s H)).
Defined.

Lemma X4_witness :
  let d := {| total := 2; messages := [{| peer := 1; msg := 2 |}];
              nextToken := "t" |} in
  let s := ApiSearch.mk true
             {| total := 1; messages := [{| peer := 2; msg := 5 |}];
                nextToken := "t" |}
             {| total := 2; messages := [{| peer := 1; msg := 1 |}];
                nextToken := "t" |} false false in
  nextToken d = nextToken (ApiSearch.concatedFound s)
  /\ (let loaded := messages (ApiSearch.concatedFound s) ++ messages d in
      let full := total d =? Z.of_nat (length loaded) in
      let '(s', outs) := RW.exec (ApiSearch.onPrimaryFound d) s in
      messages (ApiSearch.concatedFound s')
        = loaded ++ (if full then messages (ApiSearch.migratedFirstFound s)
                     else [])
      /\ total (ApiSearch.concatedFound s') = total (ApiSearch.concatedFound s)
      /\ nextToken (ApiSearch.concatedFound s')
         = nextToken (ApiSearch.concatedFound s)
      /\ ApiSearch.isFull s' = ApiSearch.isFull s || full
      /\ outs = [ApiSearch.Fire ApiSearch.NextFounds]).
Proof.
  intros d s.
  assert (H : nextToken d = nextToken (ApiSearch.concatedFound s))
    by reflexivity.
  exact (conj H (primary_next_page_appends d s H)).
Defined.

Lemma X5_witness :
  let d := {| total := 3; messages := [{| peer := 2; msg := 7 |}];
              nextToken := "m" |} in
  let s := ApiSearch.mk true emptyFound
             {| total := 4; messages := [{| peer := 1; msg := 1 |}];
                nextToken := "t" |} true false in
  ApiSearch.hasMigrated s = true
  /\ (let s' := fst (RW.exec (ApiSearch.onMigratedFound d) s) in
      messages (ApiSearch.concatedFound s')
        = messages (ApiSearch.concatedFound s)
          ++ (if ApiSearch.isFull s then messages d else [])
      /\ ApiSearch.isFull s' = ApiSearch.isFull s).
Proof.
  intros d s.
  assert (H : ApiSearch.hasMigrated s = true) by reflexivity.
  exact (conj H (migrated_page_waits_for_full d s H)).
Defined.

Lemma X8_witness :
  let s := Inner.mk
             (ApiSearch.mk false emptyFound
                {| total := 3;
                   messages := [{| peer := 1; msg := 1 |}; {| peer := 1; msg := 2 |}];
                   nextToken := "t" |} false false)
             Inner.noJump BottomBar.init [] in
  0 <= 1 < Inner.loadedSize s
  /\ (let c := ApiSearch.concatedFound (Inner.api s) in
      exists id,
        nth_error (messages c) (Z.to_nat 1) = Some id
        /\ RW.exec (Inner.showItem 1) s
           = (Inner.mk (Inner.api s) Inner.noJump (Inner.bar s) (Inner.listItems s),
              (if (1 =? Inner.loadedSize s - 1)
                  && negb (Inner.loadedSize s =? total c)
               then [Inner.ECall (moreCall (Inner.api s))] else [])
              ++ [Inner.EGoTo id; Inner.EHideList])).
Proof.
  intro s.
  assert (H : 0 <= 1 < Inner.loadedSize s)
    by (unfold Inner.loadedSize; simpl; lia).
  exact (conj H (showItem_loaded_jumps 1 s H)).
Defined.

Lemma X9_witness :
  let s := Inner.mk
             (ApiSearch.mk false emptyFound
                {| total := 3;
                   messages := [{| peer := 1; msg := 1 |}; {| peer := 1; msg := 2 |}];
                   nextToken := "t" |} false false)
             Inner.noJump BottomBar.init [] in
  Inner.loadedSize s <= 2
  /\ (let c := ApiSearch.concatedFound (Inner.api s) in
      RW.exec (Inner.showItem 2) s
      = (Inner.mk (Inner.api s)
           {| Inner.token := nextToken c; Inner.index := 2 |}
           (Inner.bar s) (Inner.listItems s),
         if Inner.loadedSize s =? total c then []
         else [Inner.ECall (moreCall (Inner.api s))])).
Proof.
  intro s.
  assert (H : Inner.loadedSize s <= 2) by (unfold Inner.loadedSize; simpl; lia).
  exact (conj H (showItem_beyond_loaded 2 s H)).
Defined.

Lemma X11_witness :
  let m1 := {| peer := 1; msg := 1 |} in
  let m2 := {| peer := 1; msg := 2 |} in
  let s := Inner.mk
             (ApiSearch.mk false emptyFound
                {| total := 2; messages := [m1; m2]; nextToken := "t" |}
                false false)
             Inner.noJump {| BottomBar.total := 2; BottomBar.current := 1 |} [] in
  In m2 (messages (ApiSearch.concatedFound (Inner.api s)))
  /\ (let '(s', outs) := RW.exec (Inner.step (Inner.RowClicked m2)) s in
      exists k,
        nth_error (messages (ApiSearch.concatedFound (Inner.api s))) k = Some m2
        /\ (forall j, (j < k)%nat ->
              nth_error (messages (ApiSearch.concatedFound (Inner.api s))) j
              <> Some m2)
        /\ Inner.api s' = Inner.api s
        /\ Inner.bar s' = {| BottomBar.total := BottomBar.total (Inner.bar s);
                             BottomBar.current := Z.of_nat k + 1 |}
        /\ Inner.pendingJump s' = Inner.noJump
        /\ (outs = [Inner.EGoTo m2; Inner.EHideList]
            \/ outs = [Inner.ECall (moreCall (Inner.api s));
                       Inner.EGoTo m2; Inner.EHideList])).
Proof.
  intros m1 m2 s.
  assert (H : In m2 (messages (ApiSearch.concatedFound (Inner.api s))))
    by (simpl; right; left; reflexivity).
  exact (conj H (onRowClicked_jumps m2 s H)).
Defined.


Lemma X13_witness :
  let m1 := {| peer := 1; msg := 1 |} in
  let s := Inner.mk
             (ApiSearch.mk false emptyFound
                {| total := 1; messages := [m1]; nextToken := "t" |}
                false false)
             Inner.noJump {| BottomBar.total := 1; BottomBar.current := 1 |} [] in
  let e := Inner.RowClicked m1 in
  In (Inner.EGoTo m1) (snd (RW.exec (Inner.step e) s))
  /\ In m1 (messages (ApiSearch.concatedFound
                       (Inner.api (fst (RW.exec (Inner.step e) s))))).
Proof.
  intros m1 s e.
  assert (H : In (Inner.EGoTo m1) (snd (RW.exec (Inner.step e) s)))
    by (vm_compute; left; reflexivity).
  exact (conj H (step_jumps_into_results e s m1 H)).
Defined.
